(** * ASL recognizer: model selectors and recognizer

    A shallow embedding of [my_model_selectors.py] and [my_recognizer.py].

    Modelling conventions.
    - A Python [float] that the program compares is a [pyfloat]: a
      rational, or one of the two infinities the code writes as
      [float('inf')] and [float('-inf')].  Log-likelihoods returned by
      [model.score] are finite, hence rationals ([Q]); NaN is not modelled.
    - The library calls [GaussianHMM(...).fit], [model.score] and [np.log]
      are oracles: variables of the enclosing section.  The seed is fixed
      ([random_state]), so fitting is a function of the state count and of
      the data.  An oracle either returns or raises.
    - Python statements run in the monad [Py]: local variables are a record
      that survives an exception (Python does not roll assignments back),
      and every oracle call is appended to a log of events. *)

From Stdlib Require Import String List ZArith QArith Bool Arith Lia Lqa.
Import ListNotations.

Set Implicit Arguments.

Local Open Scope nat_scope.
Local Open Scope list_scope.

(** ** Exceptions and results *)

Inductive exn : Type :=
| ValueError
| AttributeError
| KeyError
| IndexError
| UnboundLocalError
| ZeroDivisionError
| RuntimeError.

Definition exn_eqb (a b : exn) : bool :=
  match a, b with
  | ValueError, ValueError
  | AttributeError, AttributeError
  | KeyError, KeyError
  | IndexError, IndexError
  | UnboundLocalError, UnboundLocalError
  | ZeroDivisionError, ZeroDivisionError
  | RuntimeError, RuntimeError => true
  | _, _ => false
  end.

Inductive result (A : Type) : Type :=
| Ok (a : A)
| Raise (e : exn).

Arguments Ok {A} a.
Arguments Raise {A} e.

(** ** Python floats, as far as the program compares them *)

Inductive pyfloat : Type :=
| NegInf
| Fin (q : Q)
| PosInf.

Definition Qltb (a b : Q) : bool := negb (Qle_bool b a).

(** [float_ltb a b] is Python's [a < b]. *)
Definition float_ltb (a b : pyfloat) : bool :=
  match a, b with
  | NegInf, NegInf => false
  | NegInf, _ => true
  | Fin _, NegInf => false
  | Fin x, Fin y => Qltb x y
  | Fin _, PosInf => true
  | PosInf, _ => false
  end.

(** [float_gtb a b] is Python's [a > b]. *)
Definition float_gtb (a b : pyfloat) : bool := float_ltb b a.

(** Python's [a / b] on numbers. *)
Definition py_div (a b : Q) : result Q :=
  if Qeq_bool b 0 then Raise ZeroDivisionError else Ok (a / b)%Q.

(** Python's [sum(xs)]. *)
Definition py_sum (xs : list Q) : Q := fold_left Qplus xs 0%Q.

(** ** Python dictionaries

    A [dict] keeps insertion order and has at most one binding per key;
    [set] overwrites in place or appends. *)

Module Dict.

Definition dict (V : Type) : Type := list (string * V).

Definition empty {V : Type} : dict V := [].

Fixpoint get {V : Type} (d : dict V) (k : string) : option V :=
  match d with
  | [] => None
  | (k', v) :: d' => if String.eqb k k' then Some v else get d' k
  end.

Fixpoint set {V : Type} (d : dict V) (k : string) (v : V) : dict V :=
  match d with
  | [] => [(k, v)]
  | (k', v') :: d' =>
      if String.eqb k k' then (k, v) :: d' else (k', v') :: set d' k v
  end.

Definition keys {V : Type} (d : dict V) : list string := map fst d.

Definition values {V : Type} (d : dict V) : list V := map snd d.

(** The invariant of a Python dictionary. *)
Definition wf {V : Type} (d : dict V) : Prop := NoDup (keys d).

End Dict.

Import Dict.

(** ** Feature data *)

(** One feature frame: a vector of fixed dimensionality. *)
Definition Frame : Type := list Q.

(** One gesture instance: its frames in order. *)
Definition Sequence : Type := list Frame.

(** The pair [(X, lengths)] that hmmlearn consumes: all frames stacked,
    and the length of each instance. *)
Definition Features : Type := (list Frame * list nat)%type.

(** ** The monad of Python statements *)

(** Calls into the libraries, in the order they are made. *)
Inductive event (Model : Type) : Type :=
| EvFit (n : nat) (data : Features)
| EvScore (m : Model) (data : Features)
| EvSplit (n_splits n_samples : nat).

Arguments EvFit {Model} n data.
Arguments EvScore {Model} m data.
Arguments EvSplit {Model} n_splits n_samples.

Module Py.

(** A statement over locals [L] that logs events [E]. *)
Definition Py (E L A : Type) : Type :=
  L -> list E -> result A * L * list E.

Definition ret {E L A : Type} (a : A) : Py E L A :=
  fun l log => (Ok a, l, log).

Definition bind {E L A B : Type} (m : Py E L A) (k : A -> Py E L B)
  : Py E L B :=
  fun l log =>
    match m l log with
    | (Ok a, l', log') => k a l' log'
    | (Raise e, l', log') => (Raise e, l', log')
    end.

Definition raise {E L A : Type} (e : exn) : Py E L A :=
  fun l log => (Raise e, l, log).

(** [try: body / except: handler].  The handler sees the locals as the
    body left them. *)
Definition try_except {E L A : Type} (body : Py E L A)
  (handler : exn -> Py E L A) : Py E L A :=
  fun l log =>
    match body l log with
    | (Ok a, l', log') => (Ok a, l', log')
    | (Raise e, l', log') => handler e l' log'
    end.

Definition read {E L A : Type} (f : L -> A) : Py E L A :=
  fun l log => (Ok (f l), l, log).

Definition assign {E L : Type} (f : L -> L) : Py E L unit :=
  fun l log => (Ok tt, f l, log).

Definition emit {E L : Type} (ev : E) : Py E L unit :=
  fun l log => (Ok tt, l, log ++ [ev]).

(** The value of an expression that may raise. *)
Definition lift {E L A : Type} (r : result A) : Py E L A :=
  fun l log => (r, l, log).

(** Reading a local that may not be bound yet. *)
Definition read_bound {E L A : Type} (f : L -> option A) : Py E L A :=
  fun l log =>
    match f l with
    | Some a => (Ok a, l, log)
    | None => (Raise UnboundLocalError, l, log)
    end.

(** [for x in xs: body]. *)
Fixpoint for_each {E L X : Type} (xs : list X) (body : X -> Py E L unit)
  : Py E L unit :=
  match xs with
  | [] => ret tt
  | x :: xs' => bind (body x) (fun _ => for_each xs' body)
  end.

(** [[f(x) for x in xs]]. *)
Fixpoint comprehension {E L X A : Type} (xs : list X) (f : X -> Py E L A)
  : Py E L (list A) :=
  match xs with
  | [] => ret []
  | x :: xs' =>
      bind (f x) (fun a =>
      bind (comprehension xs' f) (fun r => ret (a :: r)))
  end.

(** [if c: body], with no [else]. *)
Definition when {E L : Type} (c : bool) (body : Py E L unit) : Py E L unit :=
  if c then body else ret tt.

End Py.

Import Py.

Declare Scope py_scope.
Delimit Scope py_scope with py.

Notation "x <- m ;; k" := (bind m (fun x => k))
  (at level 61, m at next level, right associativity) : py_scope.
Notation "m ;; k" := (bind m (fun _ => k))
  (at level 61, right associativity) : py_scope.

Local Open Scope py_scope.

(** [range(lo, hi + 1)] on state counts. *)
Definition py_range (lo hi : nat) : list nat := seq lo (hi + 1 - lo).

(** [d[k]]. *)
Definition subscript {E L V : Type} (d : dict V) (k : string) : Py E L V :=
  match get d k with
  | Some v => ret v
  | None => raise KeyError
  end.

(** ** Calls into hmmlearn

    Every call is logged before its outcome is known. *)

Section Calls.

Variable Model : Type.
Variable L : Type.

(** [GaussianHMM(n, covariance_type='diag', n_iter=1000,
    random_state=seed).fit(X, lengths)]. *)
Variable hmm_fit : nat -> nat -> Features -> result Model.

(** [model.score(X, lengths)]. *)
Variable hmm_score : Model -> Features -> result Q.

Definition call_fit (n seed : nat) (data : Features)
  : Py (event Model) L Model :=
  emit (EvFit n data) ;; lift (hmm_fit n seed data).

Definition call_score (m : Model) (data : Features)
  : Py (event Model) L Q :=
  emit (EvScore m data) ;; lift (hmm_score m data).

(** [model.score(X, lengths)] where [model] may be [None]. *)
Definition call_score_opt (m : option Model) (data : Features)
  : Py (event Model) L Q :=
  match m with
  | Some m' => call_score m' data
  | None => raise AttributeError
  end.

End Calls.

(** ** The recognizer *)

Module Recognizer.

(** Modelled from the spec: [asl_data.SinglesData], the test set, which
    exposes per index the item's instance list and its
    [(X, lengths)] pair, and the number of items. *)
Definition SinglesData : Type := list (list Sequence * Features).

Definition get_all_sequences (t : SinglesData) : list (list Sequence) :=
  map fst t.

Definition get_all_Xlengths (t : SinglesData) : list Features :=
  map snd t.

Definition get_item_sequences {E L : Type} (t : SinglesData) (i : nat)
  : Py E L (list Sequence) :=
  match nth_error (get_all_sequences t) i with
  | Some s => ret s
  | None => raise KeyError
  end.

Definition get_item_Xlengths {E L : Type} (t : SinglesData) (i : nat)
  : Py E L Features :=
  match nth_error (get_all_Xlengths t) i with
  | Some x => ret x
  | None => raise KeyError
  end.

(** The locals of [recognize].  [score] is [None] until its first
    assignment; [best_word], [p] and [best_score] are assigned at the top
    of every item before they are read. *)
Record locals : Type := {
  probabilities : list (dict Q);
  guesses : list (option string);
  best_word : option string;
  p : dict Q;
  best_score : pyfloat;
  score : option Q
}.

Definition set_probabilities v (l : locals) : locals :=
  {| probabilities := v; guesses := guesses l; best_word := best_word l;
     p := p l; best_score := best_score l; score := score l |}.
Definition set_guesses v (l : locals) : locals :=
  {| probabilities := probabilities l; guesses := v;
     best_word := best_word l; p := p l; best_score := best_score l;
     score := score l |}.
Definition set_best_word v (l : locals) : locals :=
  {| probabilities := probabilities l; guesses := guesses l;
     best_word := v; p := p l; best_score := best_score l;
     score := score l |}.
Definition set_p v (l : locals) : locals :=
  {| probabilities := probabilities l; guesses := guesses l;
     best_word := best_word l; p := v; best_score := best_score l;
     score := score l |}.
Definition set_best_score v (l : locals) : locals :=
  {| probabilities := probabilities l; guesses := guesses l;
     best_word := best_word l; p := p l; best_score := v;
     score := score l |}.
Definition set_score v (l : locals) : locals :=
  {| probabilities := probabilities l; guesses := guesses l;
     best_word := best_word l; p := p l; best_score := best_score l;
     score := v |}.

(** [xs[i] = v]. *)
Fixpoint list_assign {A : Type} (xs : list A) (i : nat) (v : A)
  : result (list A) :=
  match xs, i with
  | [], _ => Raise IndexError
  | _ :: xs', O => Ok (v :: xs')
  | x :: xs', S i' =>
      match list_assign xs' i' v with
      | Ok r => Ok (x :: r)
      | Raise e => Raise e
      end
  end.

Section WithModel.

Variable Model : Type.

(** [model.score(X, lengths)]. *)
Variable hmm_score : Model -> Features -> result Q.

Definition stmt : Type -> Type := Py (event Model) locals.

(** Lines 33-42: the body of [for word in models]. *)
Definition word_body (models : dict Model) (current : Features)
  (word : string) : stmt unit :=
  model <- subscript models word ;;
  try_except
    (s <- call_score hmm_score model current ;;
     assign (set_score (Some s)) ;;
     assign (fun l => set_p (Dict.set (p l) word s) l))
    (fun _ => assign (fun l => set_p (Dict.set (p l) word 0%Q) l)) ;;
  s <- read_bound score ;;
  b <- read best_score ;;
  when (float_gtb (Fin s) b)
    (assign (set_best_score (Fin s)) ;;
     assign (set_best_word (Some word))).

(** Lines 26-45: the body of [for i in range(...)]. *)
Definition item_body (models : dict Model) (test_set : SinglesData)
  (i : nat) : stmt unit :=
  _ <- get_item_sequences test_set i ;;
  current <- get_item_Xlengths test_set i ;;
  assign (set_best_word None) ;;
  assign (set_p Dict.empty) ;;
  assign (set_best_score NegInf) ;;
  for_each (keys models) (word_body models current) ;;
  assign (fun l => set_probabilities (probabilities l ++ [p l]) l) ;;
  w <- read best_word ;;
  g <- read guesses ;;
  g' <- lift (list_assign g i w) ;;
  assign (set_guesses g').

Definition init (test_set : SinglesData) : locals :=
  {| probabilities := [];
     guesses := map (fun _ => Some EmptyString) (get_all_Xlengths test_set);
     best_word := None; p := Dict.empty; best_score := NegInf;
     score := None |}.

Definition recognize_stmt (models : dict Model) (test_set : SinglesData)
  : stmt (list (dict Q) * list (option string)) :=
  for_each (seq 0 (List.length (get_all_sequences test_set)))
           (item_body models test_set) ;;
  ps <- read probabilities ;;
  gs <- read guesses ;;
  ret (ps, gs).

(** [recognize(models, test_set)]: what it returns or raises. *)
Definition recognize (models : dict Model) (test_set : SinglesData)
  : result (list (dict Q) * list (option string)) :=
  fst (fst (recognize_stmt models test_set (init test_set) [])).

End WithModel.

End Recognizer.

(** ** The selectors: shared part *)

Module ModelSelector.

(** The attributes [__init__] stores. *)
Record t : Type := {
  words : dict (list Sequence);
  hwords : dict Features;
  sequences : list Sequence;
  X : list Frame;
  lengths : list nat;
  this_word : string;
  n_constant : nat;
  min_n_components : nat;
  max_n_components : nat;
  random_state : nat;
  verbose : bool
}.

(** [ModelSelector.__init__]. *)
Definition init (all_word_sequences : dict (list Sequence))
  (all_word_Xlengths : dict Features) (this_word : string)
  (n_constant min_n_components max_n_components random_state : nat)
  (verbose : bool) : result t :=
  match get all_word_sequences this_word with
  | None => Raise KeyError
  | Some sq =>
      match get all_word_Xlengths this_word with
      | None => Raise KeyError
      | Some (x, ls) =>
          Ok {| words := all_word_sequences; hwords := all_word_Xlengths;
                sequences := sq; X := x; lengths := ls;
                this_word := this_word; n_constant := n_constant;
                min_n_components := min_n_components;
                max_n_components := max_n_components;
                random_state := random_state; verbose := verbose |}
      end
  end.

(** The default keyword arguments of [__init__]. *)
Definition init_default (all_word_sequences : dict (list Sequence))
  (all_word_Xlengths : dict Features) (this_word : string) : result t :=
  init all_word_sequences all_word_Xlengths this_word 3 2 10 14 false.

(** The candidate state counts, ascending:
    [range(self.min_n_components, self.max_n_components+1)]. *)
Definition range (self : t) : list nat :=
  py_range (min_n_components self) (max_n_components self).

Section WithModel.

Variable Model : Type.
Variable L : Type.
Variable hmm_fit : nat -> nat -> Features -> result Model.

(** [base_model]: the fit on the word's own data; any failure gives
    [None].  The diagnostic prints are not modelled. *)
Definition base_model (self : t) (num_states : nat)
  : Py (event Model) L (option Model) :=
  try_except
    (hmm_model <- call_fit hmm_fit num_states (random_state self)
                           (X self, lengths self) ;;
     ret (Some hmm_model))
    (fun _ => ret None).

End WithModel.

End ModelSelector.

(** ** SelectorConstant *)

Module SelectorConstant.

Import ModelSelector.

Section WithModel.

Variable Model : Type.
Variable hmm_fit : nat -> nat -> Features -> result Model.

Definition select_stmt (self : t) : Py (event Model) unit (option Model) :=
  let best_num_components := n_constant self in
  base_model hmm_fit self best_num_components.

Definition select (self : t) : result (option Model) * list (event Model) :=
  let '(r, _, log) := select_stmt self tt [] in (r, log).

End WithModel.

End SelectorConstant.

(** ** SelectorBIC *)

Module SelectorBIC.

Import ModelSelector.

Section WithModel.

Variable Model : Type.
Variable hmm_fit : nat -> nat -> Features -> result Model.
Variable hmm_score : Model -> Features -> result Q.

(** [np.log(n)] for a row count [n]. *)
Variable np_log : nat -> Q.

Record locals : Type := {
  best_score : pyfloat;
  best_model : option Model
}.

Definition set_best_score v (l : locals) : locals :=
  {| best_score := v; best_model := best_model l |}.
Definition set_best_model v (l : locals) : locals :=
  {| best_score := best_score l; best_model := v |}.

Definition stmt : Type -> Type := Py (event Model) locals.

(** [len(self.X[0])]. *)
Definition len_X0 (self : t) : stmt nat :=
  match X self with
  | [] => raise IndexError
  | f :: _ => ret (List.length f)
  end.

(** Line 87: the number of free parameters. *)
Definition free_parameters (num d : nat) : Z :=
  (Z.of_nat num * (Z.of_nat num - 1) + 2 * Z.of_nat d * Z.of_nat num)%Z.

(** Line 88: the criterion. *)
Definition bic (self : t) (num d : nat) (logL : Q) : Q :=
  ((-2 # 1) * logL
   + inject_Z (free_parameters num d) * np_log (List.length (X self)))%Q.

(** Lines 85-91: the body of the loop. *)
Definition candidate (self : t) (num : nat) : stmt unit :=
  model <- base_model hmm_fit self num ;;
  logL <- call_score_opt hmm_score model (X self, lengths self) ;;
  d <- len_X0 self ;;
  let score := bic self num d logL in
  b <- read best_score ;;
  when (float_ltb (Fin score) b)
    (assign (set_best_score (Fin score)) ;;
     assign (set_best_model model)).

(** Lines 80-95. *)
Definition select_stmt (self : t) : stmt (option Model) :=
  try_except
    (for_each (py_range (min_n_components self) (max_n_components self))
              (candidate self) ;;
     read best_model)
    (fun _ => read best_model).

Definition init_locals : locals :=
  {| best_score := PosInf; best_model := None |}.

Definition select (self : t) : result (option Model) * list (event Model) :=
  let '(r, _, log) := select_stmt self init_locals [] in (r, log).

End WithModel.

End SelectorBIC.

(** ** SelectorDIC *)

Module SelectorDIC.

Import ModelSelector.

Section WithModel.

Variable Model : Type.
Variable hmm_fit : nat -> nat -> Features -> result Model.
Variable hmm_score : Model -> Features -> result Q.

(** [model] is [None] until its first assignment; it is not reset
    between words or between state counts. *)
Record locals : Type := {
  best_score : pyfloat;
  best_model : option Model;
  logP1 : dict Q;
  words : list string;
  model : option Model
}.

Definition set_best_score v (l : locals) : locals :=
  {| best_score := v; best_model := best_model l; logP1 := logP1 l;
     words := words l; model := model l |}.
Definition set_best_model v (l : locals) : locals :=
  {| best_score := best_score l; best_model := v; logP1 := logP1 l;
     words := words l; model := model l |}.
Definition set_logP1 v (l : locals) : locals :=
  {| best_score := best_score l; best_model := best_model l; logP1 := v;
     words := words l; model := model l |}.
Definition set_words v (l : locals) : locals :=
  {| best_score := best_score l; best_model := best_model l;
     logP1 := logP1 l; words := v; model := model l |}.
Definition set_model v (l : locals) : locals :=
  {| best_score := best_score l; best_model := best_model l;
     logP1 := logP1 l; words := words l; model := v |}.

Definition stmt : Type -> Type := Py (event Model) locals.

(** [best_model = model]. *)
Definition accept_model : stmt unit :=
  m <- read_bound model ;;
  assign (set_best_model (Some m)).

(** Lines 120-128: fit and score one word on its own data. *)
Definition fit_word (self : t) (num : nat) (train : string)
  (data : Features) : stmt unit :=
  try_except
    (m <- call_fit hmm_fit num (random_state self) data ;;
     assign (set_model (Some m)) ;;
     s <- call_score hmm_score m data ;;
     assign (fun l => set_logP1 (Dict.set (logP1 l) train s) l) ;;
     assign (fun l => set_words (words l ++ [train]) l))
    (fun e => if exn_eqb e ValueError then ret tt else raise e).

(** Lines 130-139: the contrast, after each word. *)
Definition contrast (self : t) : stmt unit :=
  try_except
    (ws <- read words ;;
     when (1 <? List.length ws)
       (lp <- read logP1 ;;
        others <- comprehension
                    (filter (fun w => negb (String.eqb w (this_word self)))
                            ws)
                    (subscript lp) ;;
        let logP2 := py_sum others in
        own <- subscript lp (this_word self) ;;
        inv <- lift (py_div 1 (inject_Z (Z.of_nat (List.length ws) - 1))) ;;
        let score := (own - inv * logP2)%Q in
        b <- read best_score ;;
        when (float_gtb (Fin score) b)
          (assign (set_best_score (Fin score)) ;;
           accept_model)))
    (fun e => if exn_eqb e KeyError then accept_model else raise e).

(** Lines 119-139: the body of [for train in self.words.keys()]. *)
Definition word_body (self : t) (num : nat) (train : string) : stmt unit :=
  data <- subscript (hwords self) train ;;
  fit_word self num train data ;;
  contrast self.

(** Lines 116-139: the body of [for num in range(...)]. *)
Definition candidate (self : t) (num : nat) : stmt unit :=
  assign (set_logP1 Dict.empty) ;;
  assign (set_words []) ;;
  for_each (keys (ModelSelector.words self)) (word_body self num).

Definition select_stmt (self : t) : stmt (option Model) :=
  for_each (py_range (min_n_components self) (max_n_components self))
           (candidate self) ;;
  read best_model.

Definition init_locals : locals :=
  {| best_score := NegInf; best_model := None; logP1 := Dict.empty;
     words := []; model := None |}.

Definition select (self : t) : result (option Model) * list (event Model) :=
  let '(r, _, log) := select_stmt self init_locals [] in (r, log).

End WithModel.

End SelectorDIC.

(** ** Fold construction *)

(** scikit-learn's [KFold] without shuffling, after its documentation: the
    samples [0 .. n_samples-1] are cut into [n_splits] consecutive test
    folds, the first [n_samples mod n_splits] of size
    [n_samples / n_splits + 1] and the others of size
    [n_samples / n_splits]; the training indices of a fold are all the
    others, ascending. *)
Module KFold.

(** [KFold(n_splits)]. *)
Definition make (n_splits : nat) : result nat :=
  if n_splits <=? 1 then Raise ValueError else Ok n_splits.

Definition fold_sizes (n_splits n_samples : nat) : list nat :=
  map (fun i => n_samples / n_splits
                + (if i <? n_samples mod n_splits then 1 else 0))
      (seq 0 n_splits).

Fixpoint folds_from (current : nat) (sizes : list nat) (n_samples : nat)
  : list (list nat * list nat) :=
  match sizes with
  | [] => []
  | size :: rest =>
      let stop := current + size in
      (seq 0 current ++ seq stop (n_samples - stop), seq current size)
        :: folds_from stop rest n_samples
  end.

(** [split_method.split(xs)] with [n_samples = len(xs)]: the pairs
    [(train, test)] it yields. *)
Definition split (n_splits n_samples : nat)
  : result (list (list nat * list nat)) :=
  if n_samples <? n_splits then Raise ValueError
  else Ok (folds_from 0 (fold_sizes n_splits n_samples) n_samples).

End KFold.

(** [[xs[i] for i in idx]]. *)
Fixpoint pick {A : Type} (idx : list nat) (xs : list A) : result (list A) :=
  match idx with
  | [] => Ok []
  | i :: idx' =>
      match nth_error xs i with
      | None => Raise IndexError
      | Some x =>
          match pick idx' xs with
          | Ok r => Ok (x :: r)
          | Raise e => Raise e
          end
      end
  end.

(** Modelled from the spec: [asl_utils.combine_sequences], which stacks the
    frames of the instances at the given positions and pairs them with the
    instances' lengths. *)
Definition combine_sequences (split_index_list : list nat)
  (sequences : list Sequence) : result Features :=
  match pick split_index_list sequences with
  | Ok sequences_fold =>
      Ok (List.concat sequences_fold, map (@List.length Frame) sequences_fold)
  | Raise e => Raise e
  end.

(** ** SelectorCV *)

Module SelectorCV.

Import ModelSelector.

Section WithModel.

Variable Model : Type.
Variable hmm_fit : nat -> nat -> Features -> result Model.
Variable hmm_score : Model -> Features -> result Q.

(** [model] is the variable of the fold loop; it is [None] until its
    first assignment there. *)
Record locals : Type := {
  best_score : pyfloat;
  best_model : option Model;
  log_sum : Q;
  length : nat;
  model : option Model
}.

Definition set_best_score v (l : locals) : locals :=
  {| best_score := v; best_model := best_model l; log_sum := log_sum l;
     length := length l; model := model l |}.
Definition set_best_model v (l : locals) : locals :=
  {| best_score := best_score l; best_model := v; log_sum := log_sum l;
     length := length l; model := model l |}.
Definition set_log_sum v (l : locals) : locals :=
  {| best_score := best_score l; best_model := best_model l;
     log_sum := v; length := length l; model := model l |}.
Definition set_length v (l : locals) : locals :=
  {| best_score := best_score l; best_model := best_model l;
     log_sum := log_sum l; length := v; model := model l |}.
Definition set_model v (l : locals) : locals :=
  {| best_score := best_score l; best_model := best_model l;
     log_sum := log_sum l; length := length l; model := v |}.

Definition stmt : Type -> Type := Py (event Model) locals.

(** Lines 159-167: one state count when the word has one instance. *)
Definition candidate_single (self : t) (num : nat) : stmt unit :=
  m <- base_model hmm_fit self num ;;
  try_except
    (score <- call_score_opt hmm_score m (X self, lengths self) ;;
     b <- read best_score ;;
     when (float_gtb (Fin score) b)
       (assign (set_best_score (Fin score)) ;;
        assign (set_best_model m)))
    (fun _ => ret tt).

(** Lines 176-183: one fold. *)
Definition fold_body (self : t) (num : nat)
  (fold : list nat * list nat) : stmt unit :=
  let '(cv_train, cv_test) := fold in
  train <- lift (combine_sequences cv_train (sequences self)) ;;
  test <- lift (combine_sequences cv_test (sequences self)) ;;
  m <- call_fit hmm_fit num (random_state self) train ;;
  assign (set_model (Some m)) ;;
  score <- call_score hmm_score m test ;;
  assign (fun l => set_log_sum (log_sum l + score)%Q l) ;;
  assign (fun l => set_length (length l + 1) l).

(** [split_method.split(self.sequences)]. *)
Definition call_split (split_method : nat) (self : t)
  : stmt (list (list nat * list nat)) :=
  let n_samples := List.length (sequences self) in
  emit (EvSplit split_method n_samples) ;;
  lift (KFold.split split_method n_samples).

(** Lines 172-191: one state count when the word has several
    instances. *)
Definition candidate_folds (split_method : nat) (self : t) (num : nat)
  : stmt unit :=
  try_except
    (assign (set_log_sum 0%Q) ;;
     assign (set_length 0) ;;
     folds <- call_split split_method self ;;
     for_each folds (fold_body self num) ;;
     s <- read log_sum ;;
     n <- read length ;;
     avg_score <- lift (py_div s (inject_Z (Z.of_nat n))) ;;
     b <- read best_score ;;
     when (float_gtb (Fin avg_score) b)
       (assign (set_best_score (Fin avg_score)) ;;
        m <- read_bound model ;;
        assign (set_best_model (Some m))))
    (fun _ => ret tt).

Definition select_stmt (self : t) : stmt (option Model) :=
  let kfold_n := Nat.min 3 (List.length (sequences self)) in
  (if kfold_n =? 1 then
     for_each (py_range (min_n_components self) (max_n_components self))
              (candidate_single self)
   else
     split_method <- lift (KFold.make kfold_n) ;;
     for_each (py_range (min_n_components self) (max_n_components self))
              (candidate_folds split_method self)) ;;
  read best_model.

Definition init_locals : locals :=
  {| best_score := NegInf; best_model := None; log_sum := 0%Q;
     length := 0; model := None |}.

Definition select (self : t) : result (option Model) * list (event Model) :=
  let '(r, _, log) := select_stmt self init_locals [] in (r, log).

End WithModel.

End SelectorCV.

(** ** SelectorBIC: what one candidate amounts to *)

Module BICSpec.

Import ModelSelector SelectorBIC.

Section WithModel.

Variable Model : Type.
Variable hmm_fit : nat -> nat -> Features -> result Model.
Variable hmm_score : Model -> Features -> result Q.
Variable np_log : nat -> Q.

(** The model and the criterion of a state count whose fit, score and
    parameter count all succeed. *)
Definition scored (self : t) (num : nat) : option (Model * Q) :=
  match hmm_fit num (random_state self) (X self, lengths self) with
  | Ok m =>
      match hmm_score m (X self, lengths self) with
      | Ok logL =>
          match X self with
          | f :: _ => Some (m, bic np_log self num (List.length f) logL)
          | [] => None
          end
      | Raise _ => None
      end
  | Raise _ => None
  end.

(** The state counts the loop gets to: those of [nums] up to and including
    the first one that fails. *)
Fixpoint reached (self : t) (nums : list nat) : list nat :=
  match nums with
  | [] => []
  | num :: rest =>
      num :: match scored self num with
             | Some _ => reached self rest
             | None => []
             end
  end.

(** The loop invariant: the best so far is no worse than any scored state
    count whose fit is in the log. *)
Definition bic_inv (self : t) (l : locals Model) (log : list (event Model))
  : Prop :=
  (forall n m v,
      In (EvFit n (X self, lengths self)) log ->
      scored self n = Some (m, v) ->
      exists n' m' v',
        In n' (range self) /\ scored self n' = Some (m', v')
        /\ best_model l = Some m' /\ best_score l = Fin v' /\ (v' <= v)%Q)
  /\ ((best_model l = None /\ best_score l = PosInf)
      \/ exists n' m' v',
          In n' (range self) /\ scored self n' = Some (m', v')
          /\ best_model l = Some m' /\ best_score l = Fin v').

End WithModel.

End BICSpec.

(** ** SelectorCV: what one candidate amounts to *)

Module CVSpec.

Import ModelSelector SelectorCV.

Section WithModel.

Variable Model : Type.
Variable hmm_fit : nat -> nat -> Features -> result Model.
Variable hmm_score : Model -> Features -> result Q.

(** The degenerate path: fit on the word's data and score that fit on
    the same data. *)
Definition self_score (self : t) (num : nat) : option (Model * Q) :=
  match hmm_fit num (random_state self) (X self, lengths self) with
  | Ok m =>
      match hmm_score m (X self, lengths self) with
      | Ok s => Some (m, s)
      | Raise _ => None
      end
  | Raise _ => None
  end.

(** The library calls of the degenerate path for one state count. *)
Definition single_trace (self : t) (num : nat) : list (event Model) :=
  EvFit num (X self, lengths self)
    :: match hmm_fit num (random_state self) (X self, lengths self) with
       | Ok m => [EvScore m (X self, lengths self)]
       | Raise _ => []
       end.

(** One fold: fit on the held-in instances, score on the held-out
    ones. *)
Definition fold_outcome (self : t) (num : nat) (fold : list nat * list nat)
  : option (Model * Q) :=
  match combine_sequences (fst fold) (sequences self),
        combine_sequences (snd fold) (sequences self) with
  | Ok held_in, Ok held_out =>
      match hmm_fit num (random_state self) held_in with
      | Ok m =>
          match hmm_score m held_out with
          | Ok s => Some (m, s)
          | Raise _ => None
          end
      | Raise _ => None
      end
  | _, _ => None
  end.

Definition fold_trace (self : t) (num : nat) (fold : list nat * list nat)
  : list (event Model) :=
  match combine_sequences (fst fold) (sequences self),
        combine_sequences (snd fold) (sequences self) with
  | Ok held_in, Ok held_out =>
      EvFit num held_in
        :: match hmm_fit num (random_state self) held_in with
           | Ok m => [EvScore m held_out]
           | Raise _ => []
           end
  | _, _ => []
  end.

(** All folds in order; [None] as soon as one fails. *)
Fixpoint folds_outcome (self : t) (num : nat)
  (folds : list (list nat * list nat)) : option (list (Model * Q)) :=
  match folds with
  | [] => Some []
  | fold :: rest =>
      match fold_outcome self num fold with
      | Some o =>
          match folds_outcome self num rest with
          | Some os => Some (o :: os)
          | None => None
          end
      | None => None
      end
  end.

(** The library calls for the folds: nothing after a failing fold. *)
Fixpoint folds_trace (self : t) (num : nat)
  (folds : list (list nat * list nat)) : list (event Model) :=
  match folds with
  | [] => []
  | fold :: rest =>
      fold_trace self num fold
        ++ match fold_outcome self num fold with
           | Some _ => folds_trace self num rest
           | None => []
           end
  end.

(** The arithmetic mean of the fold scores. *)
Definition mean (scores : list Q) : Q :=
  (py_sum scores / inject_Z (Z.of_nat (List.length scores)))%Q.

(** The model of the final fold and the mean score over the folds, when
    every fold succeeds. *)
Definition cv_mean (self : t) (num : nat)
  (folds : list (list nat * list nat)) : option (Model * Q) :=
  match folds_outcome self num folds with
  | Some (o :: os) =>
      Some (fst (last (o :: os) o), mean (map snd (o :: os)))
  | _ => None
  end.

(** What [fold_body] does to the locals on success. *)
Definition fold_step (l : locals Model) (o : Model * Q) : locals Model :=
  set_length (length l + 1)
    (set_log_sum (log_sum l + snd o)%Q (set_model (Some (fst o)) l)).

(** Line 186-188: the comparison with the best so far. *)
Definition challenge (l : locals Model) (o : option (Model * Q))
  : pyfloat * option Model :=
  match o with
  | Some (m, s) =>
      if float_gtb (Fin s) (best_score l) then (Fin s, Some m)
      else (best_score l, best_model l)
  | None => (best_score l, best_model l)
  end.

Definition best (l : locals Model) : pyfloat * option Model :=
  (best_score l, best_model l).

(** The best so far maximises [quality] over the candidates [done]. *)
Definition is_argmax (quality : nat -> option (Model * Q))
  (done : list nat) (b : pyfloat * option Model) : Prop :=
  (forall num m s,
      In num done -> quality num = Some (m, s) ->
      exists num' m' s',
        In num' done /\ quality num' = Some (m', s')
        /\ b = (Fin s', Some m') /\ (s <= s')%Q)
  /\ (b = (NegInf, None)
      \/ exists num' m' s',
          In num' done /\ quality num' = Some (m', s')
          /\ b = (Fin s', Some m')).

End WithModel.

End CVSpec.

(** ** The recognizer: what one item amounts to when every model scores *)

Module RecognizerSpec.

Section WithModel.

Variable Model : Type.
Variable hmm_score : Model -> Features -> result Q.

(** The score of a word's model on an item; 0 where there is none. *)
Definition score_of (models : dict Model) (current : Features)
  (w : string) : Q :=
  match get models w with
  | Some m =>
      match hmm_score m current with
      | Ok s => s
      | Raise _ => 0%Q
      end
  | None => 0%Q
  end.

(** Every model of the table scores the item. *)
Definition all_score (models : dict Model) (current : Features) : Prop :=
  forall w, In w (keys models) ->
            exists m s, get models w = Some m /\ hmm_score m current = Ok s.

End WithModel.

(** Lines 40-42 on a score [sc w] that was just assigned. *)
Definition challenge (sc : string -> Q) (b : pyfloat * option string)
  (w : string) : pyfloat * option string :=
  if float_gtb (Fin (sc w)) (fst b) then (Fin (sc w), Some w) else b.

(** [b] is the first maximum of [sc] over the words [seen]. *)
Definition leads (sc : string -> Q) (seen : list string)
  (b : pyfloat * option string) : Prop :=
  (seen = [] /\ b = (NegInf, None))
  \/ exists w before after,
      seen = before ++ w :: after
      /\ b = (Fin (sc w), Some w)
      /\ (forall w', In w' seen -> (sc w' <= sc w)%Q)
      /\ (forall w', In w' before -> (sc w' < sc w)%Q).

(** The mapping after the words [ws]. *)
Definition record (sc : string -> Q) (ws : list string) (d : dict Q)
  : dict Q :=
  fold_left (fun d w => Dict.set d w (sc w)) ws d.

End RecognizerSpec.

(** ** Test fixtures

    Concrete oracles and inputs on which the definitions above are run. *)

Module Fixture.

Import ModelSelector.

(** A test item told apart by its length vector. *)
Definition item (k : nat) : list Sequence * Features := ([], ([], [k])).

(** Recognizer models are numbered: 1 is the model of ["A"], 2 of ["B"]. *)
Definition models_AB : dict nat := [("A"%string, 1); ("B"%string, 2)].

Definition models_B : dict nat := [("B"%string, 2)].

(** Scores of model [m] on item [k]; the pairs not listed fail. *)
Definition scores (m : nat) (d : Features) : result Q :=
  match m, snd d with
  | 1, [0] => Ok (-5 # 1)%Q
  | 2, [0] => Raise ValueError
  | 1, [2] => Ok 1%Q
  | 2, [2] => Ok 2%Q
  | 1, [3] => Raise ValueError
  | 2, [3] => Ok 1%Q
  | _, _ => Raise ValueError
  end.

(** A fitted model of the selectors is told apart by its state count and
    by the length vector of the data it was fitted on. *)
Definition Model : Type := (nat * list nat)%type.

Definition fit_all (n seed : nat) (d : Features) : result Model :=
  Ok (n, snd d).

(** Three state counts; fitting three states fails. *)
Definition fit_not_3 (n seed : nat) (d : Features) : result Model :=
  match n with
  | 3 => Raise ValueError
  | _ => Ok (n, snd d)
  end.

Definition score_by_states (m : Model) (d : Features) : result Q :=
  match fst m with
  | 2 => Ok (-10 # 1)%Q
  | 4 => Ok (-1 # 1)%Q
  | _ => Ok (-20 # 1)%Q
  end.

(** A rational stand-in for the logarithm, exact at one row. *)
Definition log_rows (n : nat) : Q :=
  match n with
  | 1 => 0%Q
  | _ => 1%Q
  end.

Definition frame (a b : Z) : Frame := [inject_Z a; inject_Z b].

Definition seq_A : Sequence := [frame 1 2].
Definition seq_B : Sequence := [frame 3 4; frame 5 6].
Definition seq_C : Sequence := [frame 7 8].

Definition data_A : Features := (seq_A, [1]).
Definition data_B : Features := (seq_B, [2]).

Definition selector (vocabulary : dict (list Sequence))
  (hmm_data : dict Features) (sequences : list Sequence) (data : Features)
  (lo hi : nat) : t :=
  {| words := vocabulary; hwords := hmm_data; sequences := sequences;
     X := fst data; lengths := snd data; this_word := "A"%string;
     n_constant := 3; min_n_components := lo; max_n_components := hi;
     random_state := 14; verbose := false |}.

(** The word ["A"] alone, one instance of one frame, state counts 2..4. *)
Definition one_word : t :=
  selector [("A"%string, [seq_A])] [("A"%string, data_A)] [seq_A] data_A 2 4.

(** The words ["A"] (the target) and ["B"], state count 2 only. *)
Definition two_words : t :=
  selector [("A"%string, [seq_A]); ("B"%string, [seq_B])]
           [("A"%string, data_A); ("B"%string, data_B)] [seq_A] data_A 2 2.

(** Self-scores of the two words' models. *)
Definition score_by_word (m : Model) (d : Features) : result Q :=
  match snd m with
  | [1] => Ok (-1 # 1)%Q
  | _ => Ok (-3 # 1)%Q
  end.

(** The word ["A"] with three instances, state counts 2..3. *)
Definition three_instances : t :=
  selector [("A"%string, [seq_A; seq_B; seq_C])]
           [("A"%string, (seq_A ++ seq_B ++ seq_C, [1; 2; 1]))]
           [seq_A; seq_B; seq_C] (seq_A ++ seq_B ++ seq_C, [1; 2; 1]) 2 3.

(** More states score higher. *)
Definition score_more_states (m : Model) (d : Features) : result Q :=
  Ok (inject_Z (Z.of_nat (fst m))).

End Fixture.

(** ** Ties

    The selectors compare with a strict inequality, so among equal
    criteria the state count met first keeps the lead. *)

Module Ties.

Section WithModel.

Variable Model : Type.

(** [b] is the first minimum of [quality] over the state counts [seen];
    it is still [(inf, None)] when none of them has a quality. *)
Definition first_min (quality : nat -> option (Model * Q))
  (seen : list nat) (b : pyfloat * option Model) : Prop :=
  (b = (PosInf, None) /\ forall k, In k seen -> quality k = None)
  \/ exists before n after m v,
      seen = before ++ n :: after
      /\ quality n = Some (m, v)
      /\ b = (Fin v, Some m)
      /\ (forall k m' v',
             In k seen -> quality k = Some (m', v') -> (v <= v')%Q)
      /\ (forall k m' v',
             In k before -> quality k = Some (m', v') -> (v < v')%Q).

(** [b] is the first maximum of [quality] over the state counts [seen];
    it is still [(-inf, None)] when none of them has a quality. *)
Definition first_max (quality : nat -> option (Model * Q))
  (seen : list nat) (b : pyfloat * option Model) : Prop :=
  (b = (NegInf, None) /\ forall k, In k seen -> quality k = None)
  \/ exists before n after m v,
      seen = before ++ n :: after
      /\ quality n = Some (m, v)
      /\ b = (Fin v, Some m)
      /\ (forall k m' v',
             In k seen -> quality k = Some (m', v') -> (v' <= v)%Q)
      /\ (forall k m' v',
             In k before -> quality k = Some (m', v') -> (v' < v)%Q).

End WithModel.

End Ties.

(** ** SelectorDIC: where a model comes from *)

Module DICSpec.

Import ModelSelector.

Section WithModel.

Variable Model : Type.
Variable hmm_fit : nat -> nat -> Features -> result Model.
Variable hmm_score : Model -> Features -> result Q.

(** [m] is the fit of [num] states on the data of one of the words
    [ws]. *)
Definition fit_of (self : t) (num : nat) (ws : list string) (m : Model)
  : Prop :=
  exists w data,
    In w ws /\ get (hwords self) w = Some data
    /\ hmm_fit num (random_state self) data = Ok m.

(** The model that fitting word [w] with [num] states gives, when the word
    has data and the fit succeeds. *)
Definition fit_at (self : t) (num : nat) (w : string) : option Model :=
  match get (hwords self) w with
  | Some data =>
      match hmm_fit num (random_state self) data with
      | Ok m => Some m
      | Raise _ => None
      end
  | None => None
  end.

(** Whether word [w] is fitted and scored with [num] states. *)
Definition fits_and_scores (self : t) (num : nat) (w : string) : bool :=
  match get (hwords self) w with
  | Some data =>
      match hmm_fit num (random_state self) data with
      | Ok m =>
          match hmm_score m data with
          | Ok _ => true
          | Raise _ => false
          end
      | Raise _ => false
      end
  | None => false
  end.

(** The vocabulary words fitted and scored with [num] states, in
    iteration order. *)
Definition scored_words (self : t) (num : nat) : list string :=
  filter (fits_and_scores self num) (keys (words self)).

(** The model most recently fitted when the words [ws] have been tried
    with [num] states. *)
Definition last_fit (self : t) (num : nat) (ws : list string)
  : option Model :=
  fold_left (fun acc w => match fit_at self num w with
                          | Some m => Some m
                          | None => acc
                          end) ws None.

End WithModel.

End DICSpec.

(** ** SelectorCV: the quality of a state count *)

Module CVQuality.

Import ModelSelector.

Section WithModel.

Variable Model : Type.
Variable hmm_fit : nat -> nat -> Features -> result Model.
Variable hmm_score : Model -> Features -> result Q.

(** The model and the score that [SelectorCV.select] compares for a state
    count: the self-score when the word has one instance, otherwise the
    last fold's model and the mean score over the [min(3, n)] folds;
    nothing when a fit or a score fails. *)
Definition quality (self : t) (num : nat) : option (Model * Q) :=
  let n := List.length (sequences self) in
  if Nat.min 3 n =? 1 then CVSpec.self_score hmm_fit hmm_score self num
  else
    match KFold.split (Nat.min 3 n) n with
    | Ok folds => CVSpec.cv_mean hmm_fit hmm_score self num folds
    | Raise _ => None
    end.

End WithModel.

End CVQuality.

(** ** More fixtures *)

Module Fixture2.

Import ModelSelector Fixture.

(** A word whose feature matrix has no row, state counts 2..4. *)
Definition no_rows : t :=
  selector [("A"%string, [])] [("A"%string, ([], []))] [] ([], []) 2 4.

(** Two state counts with the same score. *)
Definition score_flat (m : Model) (d : Features) : result Q := Ok 0%Q.

(** A fit that raises something other than [ValueError]. *)
Definition fit_crash (n seed : nat) (d : Features) : result Model :=
  Raise RuntimeError.

(** A fit that raises [ValueError]. *)
Definition fit_invalid (n seed : nat) (d : Features) : result Model :=
  Raise ValueError.

(** The vocabulary names ["B"], whose data is missing. *)
Definition missing_data : t :=
  selector [("B"%string, [seq_B]); ("A"%string, [seq_A])]
           [("A"%string, data_A)] [seq_A] data_A 2 2.

Definition data_C : Features := (seq_B ++ seq_C, [3]).

(** The words ["A"] (the target), ["B"] and ["C"], state counts 2..3. *)
Definition three_words : t :=
  selector [("A"%string, [seq_A]); ("B"%string, [seq_B]);
            ("C"%string, [seq_B ++ seq_C])]
           [("A"%string, data_A); ("B"%string, data_B);
            ("C"%string, data_C)] [seq_A] data_A 2 3.

(** A fit that fails on the data of ["A"] and, with three states, on the
    data of ["B"]. *)
Definition fit_others (n seed : nat) (d : Features) : result Model :=
  match snd d, n with
  | [1], _ => Raise ValueError
  | [2], 3 => Raise ValueError
  | _, _ => Ok (n, snd d)
  end.

End Fixture2.

(** * Facts

    From here on every argument of a lemma is explicit. *)

Unset Implicit Arguments.

Lemma Qltb_lt a b : Qltb a b = true <-> (a < b)%Q.
Proof.
  unfold Qltb. rewrite negb_true_iff. split; intros H.
  - apply Qnot_le_lt. intros Hle. apply Qle_bool_iff in Hle. congruence.
  - destruct (Qle_bool b a) eqn:E; [|reflexivity].
    apply Qle_bool_iff in E. exfalso. exact (Qlt_not_le _ _ H E).
Qed.

Lemma Qltb_ge a b : Qltb a b = false <-> (b <= a)%Q.
Proof.
  unfold Qltb. rewrite negb_false_iff. apply Qle_bool_iff.
Qed.

Lemma dict_get_set (V : Type) (d : dict V) k v :
  get (Dict.set d k v) k = Some v.
Proof.
  induction d as [|[k' v'] d IH]; cbn.
  - now rewrite String.eqb_refl.
  - destruct (String.eqb k k') eqn:E; cbn.
    + now rewrite String.eqb_refl.
    + now rewrite E.
Qed.

Section ForEach.
Variables E L X : Type.
Variable body : X -> Py E L unit.

Lemma for_each_invariant (P : L -> list E -> Prop) (xs : list X) :
  (forall x l log r l' log',
      In x xs -> P l log -> body x l log = (r, l', log') -> P l' log') ->
  forall l log r l' log',
    P l log -> for_each xs body l log = (r, l', log') -> P l' log'.
Proof.
  induction xs as [|x xs IH]; intros Hbody l log r l' log' HP Hrun.
  - cbn in Hrun. inversion Hrun; subst. exact HP.
  - cbn in Hrun. unfold bind in Hrun.
    destruct (body x l log) as [[r1 l1] log1] eqn:Hb.
    assert (P l1 log1) as HP1 by (eapply Hbody; eauto; now left).
    destruct r1 as [[]|e].
    + eapply IH; eauto. intros. eapply Hbody; eauto. now right.
    + inversion Hrun; subst. exact HP1.
Qed.

(** A loop whose body never raises: the invariant may mention the
    elements already visited. *)
Lemma for_each_total (P : list X -> L -> list E -> Prop) (xs : list X) :
  (forall done x rest l log,
      xs = done ++ x :: rest -> P done l log ->
      exists l' log', body x l log = (Ok tt, l', log')
                      /\ P (done ++ [x]) l' log') ->
  forall l log,
    P [] l log ->
    exists l' log', for_each xs body l log = (Ok tt, l', log')
                    /\ P xs l' log'.
Proof.
  intros Hbody.
  enough (forall rest done l log,
             xs = done ++ rest -> P done l log ->
             exists l' log', for_each rest body l log = (Ok tt, l', log')
                             /\ P (done ++ rest) l' log') as H.
  { intros l log HP. apply (H xs [] l log); auto. }
  induction rest as [|x rest IH]; intros done l log Hxs HP.
  - exists l, log. rewrite app_nil_r. split; [reflexivity|exact HP].
  - destruct (Hbody done x rest l log Hxs HP) as (l1 & log1 & Hb & HP1).
    destruct (IH (done ++ [x]) l1 log1) as (l2 & log2 & Hr & HP2);
      [now rewrite <- app_assoc|exact HP1|].
    exists l2, log2. split.
    + cbn. unfold bind. rewrite Hb. exact Hr.
    + rewrite <- app_assoc in HP2. exact HP2.
Qed.

(** A loop that returned: every body returned, and the invariant may
    mention the elements already visited. *)
Lemma for_each_returned (P : list X -> L -> list E -> Prop) (xs : list X) :
  (forall done x rest l log l' log',
      xs = done ++ x :: rest -> P done l log ->
      body x l log = (Ok tt, l', log') -> P (done ++ [x]) l' log') ->
  forall l log l' log',
    P [] l log ->
    for_each xs body l log = (Ok tt, l', log') -> P xs l' log'.
Proof.
  intros Hbody.
  enough (forall rest done l log l' log',
             xs = done ++ rest -> P done l log ->
             for_each rest body l log = (Ok tt, l', log') ->
             P (done ++ rest) l' log') as H.
  { intros l log l' log' HP Hrun. apply (H xs [] l log l' log'); auto. }
  induction rest as [|x rest IH]; intros done l log l' log' Hxs HP Hrun.
  - cbn in Hrun. injection Hrun as <- <-. now rewrite app_nil_r.
  - cbn in Hrun. unfold bind in Hrun.
    destruct (body x l log) as [[[[]|e] l1] log1] eqn:Hb; [|discriminate].
    replace (done ++ x :: rest) with ((done ++ [x]) ++ rest)
      by now rewrite <- app_assoc.
    apply (IH (done ++ [x]) l1 log1 l' log');
      [now rewrite <- app_assoc| |exact Hrun].
    exact (Hbody done x rest l log l1 log1 Hxs HP Hb).
Qed.

(** A loop that may stop early: the invariant holds of the elements
    visited, the one that raised included. *)
Lemma for_each_visited (P : list X -> L -> list E -> Prop) (xs : list X) :
  (forall done x rest l log r l' log',
      xs = done ++ x :: rest -> P done l log ->
      body x l log = (r, l', log') -> P (done ++ [x]) l' log') ->
  forall l log r l' log',
    P [] l log ->
    for_each xs body l log = (r, l', log') ->
    exists done rest,
      xs = done ++ rest /\ P done l' log' /\ (r = Ok tt -> rest = []).
Proof.
  intros Hbody.
  enough (forall rest done l log r l' log',
             xs = done ++ rest -> P done l log ->
             for_each rest body l log = (r, l', log') ->
             exists done' rest',
               xs = done' ++ rest' /\ P done' l' log'
               /\ (r = Ok tt -> rest' = [])) as H.
  { intros l log r l' log' HP Hrun. apply (H xs [] l log r l' log'); auto. }
  induction rest as [|x rest IH]; intros done l log r l' log' Hxs HP Hrun.
  - cbn in Hrun. injection Hrun as <- <- <-. exists done, []. auto.
  - cbn in Hrun. unfold bind in Hrun.
    destruct (body x l log) as [[r1 l1] log1] eqn:Hb.
    pose proof (Hbody done x rest l log r1 l1 log1 Hxs HP Hb) as HP1.
    destruct r1 as [[]|e].
    + apply (IH (done ++ [x]) l1 log1 r l' log');
        [now rewrite <- app_assoc|exact HP1|exact Hrun].
    + injection Hrun as <- <- <-. exists (done ++ [x]), rest.
      split; [now rewrite <- app_assoc|]. split; [exact HP1|discriminate].
Qed.
End ForEach.

(** ** Fold construction and the running maximum *)

Section KFoldFacts.

Lemma folds_from_length sizes : forall current n,
  List.length (KFold.folds_from current sizes n) = List.length sizes.
Proof.
  induction sizes as [|s sizes IH]; intros; cbn; [reflexivity|].
  now rewrite IH.
Qed.

Lemma folds_from_tests sizes : forall current n,
  concat (map snd (KFold.folds_from current sizes n))
  = seq current (list_sum sizes).
Proof.
  induction sizes as [|s sizes IH]; intros current n; [reflexivity|].
  change (list_sum (s :: sizes)) with (s + list_sum sizes).
  cbn [KFold.folds_from map snd concat].
  rewrite IH, seq_app. reflexivity.
Qed.

Lemma folds_from_shape sizes : forall current n train test,
  current + list_sum sizes = n ->
  (forall s, In s sizes -> 1 <= s) ->
  In (train, test) (KFold.folds_from current sizes n) ->
  exists start size,
    1 <= size /\ start + size <= n
    /\ test = seq start size
    /\ train = seq 0 start ++ seq (start + size) (n - (start + size)).
Proof.
  induction sizes as [|s sizes IH]; intros current n train test Hsum Hpos Hin;
    cbn in Hin; [contradiction|].
  change (list_sum (s :: sizes)) with (s + list_sum sizes) in Hsum.
  destruct Hin as [Heq|Hin].
  - injection Heq as <- <-. exists current, s.
    split; [apply Hpos; now left|]. split; [lia|]. split; reflexivity.
  - apply (IH (current + s) n train test);
      [lia|intros; apply Hpos; now right|exact Hin].
Qed.

Lemma fold_sizes_sum_from q r k : forall a,
  list_sum (map (fun i => q + (if i <? r then 1 else 0)) (seq a k))
  = k * q + (Nat.min (a + k) r - Nat.min a r).
Proof.
  induction k as [|k IH]; intros a; cbn [seq map].
  - cbn. rewrite Nat.add_0_r. lia.
  - change (list_sum (?x :: ?xs)) with (x + list_sum xs).
    rewrite IH. destruct (Nat.ltb_spec a r); lia.
Qed.

Lemma fold_sizes_sum k n : 0 < k -> list_sum (KFold.fold_sizes k n) = n.
Proof.
  intros Hk. unfold KFold.fold_sizes. rewrite fold_sizes_sum_from.
  pose proof (Nat.div_mod_eq n k) as Hdm.
  pose proof (Nat.mod_upper_bound n k) as Hub.
  cbn [Nat.add]. rewrite Nat.min_0_l. lia.
Qed.

Lemma fold_sizes_positive k n s :
  0 < k -> k <= n -> In s (KFold.fold_sizes k n) -> 1 <= s.
Proof.
  intros Hk Hn Hin. unfold KFold.fold_sizes in Hin.
  apply in_map_iff in Hin as (i & <- & _).
  assert (1 <= n / k) by (apply Nat.div_le_lower_bound; lia). lia.
Qed.

Lemma split_ok k n :
  0 < k -> k <= n ->
  exists folds,
    KFold.split k n = Ok folds
    /\ List.length folds = k
    /\ concat (map snd folds) = seq 0 n
    /\ forall train test,
        In (train, test) folds ->
        exists start size,
          1 <= size /\ start + size <= n
          /\ test = seq start size
          /\ train = seq 0 start ++ seq (start + size) (n - (start + size)).
Proof.
  intros Hk Hn. unfold KFold.split.
  destruct (Nat.ltb_spec n k); [lia|].
  eexists. split; [reflexivity|]. split; [|split].
  - rewrite folds_from_length. unfold KFold.fold_sizes.
    now rewrite length_map, length_seq.
  - rewrite folds_from_tests, fold_sizes_sum by exact Hk. reflexivity.
  - intros train test Hin.
    apply (folds_from_shape (KFold.fold_sizes k n) 0 n train test); auto.
    + now rewrite fold_sizes_sum.
    + intros s. now apply fold_sizes_positive.
Qed.

End KFoldFacts.

Section Argmax.
Import SelectorCV CVSpec.
Variable Model : Type.
Variable quality : nat -> option (Model * Q).

Lemma is_argmax_nil : is_argmax quality [] (NegInf, None).
Proof.
  split; [intros ? ? ? []|now left].
Qed.

Lemma is_argmax_step done num (l l' : locals Model) :
  is_argmax quality done (best l) ->
  best l' = challenge l (quality num) ->
  is_argmax quality (done ++ [num]) (best l').
Proof.
  intros [Hmax Hb] ->. unfold challenge, best in *.
  assert (forall x, In x done -> In x (done ++ [num])) as Hmono
      by (intros; apply in_or_app; now left).
  assert (In num (done ++ [num])) as Hnum
      by (apply in_or_app; right; now left).
  destruct (quality num) as [[m s]|] eqn:Hq.
  - destruct (float_gtb (Fin s) (best_score l)) eqn:Hgt.
    + split.
      * intros n0 m0 s0 Hin Hq0. exists num, m, s.
        repeat split; auto.
        apply in_app_or in Hin as [Hin|[<-|[]]].
        -- destruct (Hmax _ _ _ Hin Hq0) as (n' & m' & s' & _ & _ & Hbest & Hle).
           injection Hbest as Hbs _. rewrite Hbs in Hgt. cbn in Hgt.
           apply Qltb_lt in Hgt. apply Qlt_le_weak.
           eapply Qle_lt_trans; eauto.
        -- rewrite Hq in Hq0. injection Hq0 as _ <-. apply Qle_refl.
      * right. exists num, m, s. auto.
    + split.
      * intros n0 m0 s0 Hin Hq0.
        apply in_app_or in Hin as [Hin|[<-|[]]].
        -- destruct (Hmax _ _ _ Hin Hq0) as (n' & m' & s' & H1 & H2 & H3 & H4).
           exists n', m', s'. auto.
        -- rewrite Hq in Hq0. injection Hq0 as <- <-.
           destruct Hb as [Hb|(n' & m' & s' & H1 & H2 & H3)].
           ++ injection Hb as Hbs _. rewrite Hbs in Hgt. discriminate.
           ++ exists n', m', s'. repeat split; auto.
              injection H3 as Hbs _. rewrite Hbs in Hgt. cbn in Hgt.
              now apply Qltb_ge in Hgt.
      * destruct Hb as [Hb|(n' & m' & s' & H1 & H2 & H3)]; [now left|].
        right. exists n', m', s'. auto.
  - split.
    + intros n0 m0 s0 Hin Hq0.
      apply in_app_or in Hin as [Hin|[<-|[]]]; [|congruence].
      destruct (Hmax _ _ _ Hin Hq0) as (n' & m' & s' & H1 & H2 & H3 & H4).
      exists n', m', s'. auto.
    + destruct Hb as [Hb|(n' & m' & s' & H1 & H2 & H3)]; [now left|].
      right. exists n', m', s'. auto.
Qed.

End Argmax.

(** ** The recognizer *)

Section RecognizerFacts.
Import Recognizer.
Variable Model : Type.
Variable hmm_score : Model -> Features -> result Q.

Local Abbreviation word_body := (word_body hmm_score).
Local Abbreviation recognize := (recognize hmm_score).

(** A successful score is stored in [p] and in the local [score], and it is
    the value compared with the best so far. *)
Lemma word_body_scored models current w m s l log :
  get models w = Some m ->
  hmm_score m current = Ok s ->
  let l1 := set_p (Dict.set (p l) w s) (set_score (Some s) l) in
  word_body models current w l log
  = (Ok tt,
     if float_gtb (Fin s) (best_score l)
     then set_best_word (Some w) (set_best_score (Fin s) l1) else l1,
     log ++ [EvScore m current]).
Proof.
  intros Hget Hs l1. subst l1.
  unfold Recognizer.word_body, subscript, try_except, call_score, bind, emit,
    lift, assign, read_bound, read, when, ret.
  rewrite Hget, Hs. destruct l as [ps gs bw pp bs sc].
  cbn -[float_gtb Dict.set].
  destruct (float_gtb (Fin s) bs); reflexivity.
Qed.

(** A failing score stores the sentinel in [p] and leaves [score] alone:
    the comparison then reads whatever [score] held before. *)
Lemma word_body_failed models current w m e s l log :
  get models w = Some m ->
  hmm_score m current = Raise e ->
  score l = Some s ->
  let l1 := set_p (Dict.set (p l) w 0%Q) l in
  word_body models current w l log
  = (Ok tt,
     if float_gtb (Fin s) (best_score l)
     then set_best_word (Some w) (set_best_score (Fin s) l1) else l1,
     log ++ [EvScore m current]).
Proof.
  intros Hget He Hs l1. subst l1.
  unfold Recognizer.word_body, subscript, try_except, call_score, bind, emit,
    lift, assign, read_bound, read, when, ret.
  rewrite Hget, He. destruct l as [ps gs bw pp bs sc]. cbn in Hs. subst sc.
  cbn -[float_gtb Dict.set].
  destruct (float_gtb (Fin s) bs); reflexivity.
Qed.

Lemma word_body_unbound models current w m e l log :
  get models w = Some m ->
  hmm_score m current = Raise e ->
  score l = None ->
  word_body models current w l log
  = (Raise UnboundLocalError, set_p (Dict.set (p l) w 0%Q) l,
     log ++ [EvScore m current]).
Proof.
  intros Hget He Hs.
  unfold Recognizer.word_body, subscript, try_except, call_score, bind, emit,
    lift, assign, read_bound, read, when, ret.
  rewrite Hget, He. destruct l as [ps gs bw pp bs sc]. cbn in Hs. subst sc.
  reflexivity.
Qed.

Lemma recognize_first_failure w m rest x xs e :
  hmm_score m (snd x) = Raise e ->
  recognize ((w, m) :: rest) (x :: xs) = Raise UnboundLocalError.
Proof.
  intros He.
  unfold Recognizer.recognize, recognize_stmt.
  cbn [get_all_sequences map List.length seq for_each].
  unfold bind at 1, bind at 1, item_body, bind at 1.
  cbn [get_item_sequences get_all_sequences map nth_error ret].
  unfold bind at 1.
  cbn [get_item_Xlengths get_all_Xlengths map nth_error ret].
  unfold bind at 1, bind at 1, bind at 1, assign at 1 2 3.
  cbn [keys map fst for_each]. unfold bind at 1, bind at 1.
  rewrite (word_body_unbound ((w, m) :: rest) (snd x) w m e _ _);
    [reflexivity| |exact He|reflexivity].
  cbn [get]. now rewrite String.eqb_refl.
Qed.

End RecognizerFacts.

(** C9.  [recognize] reads the local [score] in the comparison whether or
    not the scoring succeeded.  (1) When the first word of the table fails
    on the first item, [score] is still unbound and [recognize] raises
    [UnboundLocalError].  (2) After any later failure the comparison is made
    with the score left by the last success, while the mapping records 0
    for the failing word.  (3) So a failing word can become the guess with
    another word's score: with ["A"] then ["B"] in the table, ["A"] failing
    on the second item is guessed there with the score that ["B"] reached
    on the first item. *)
Theorem recognize_stale_score :
  (forall (Model : Type) (hmm_score : Model -> Features -> result Q)
          w m rest x xs e,
      hmm_score m (snd x) = Raise e ->
      Recognizer.recognize hmm_score ((w, m) :: rest) (x :: xs)
      = Raise UnboundLocalError)
  /\ (forall (Model : Type) (hmm_score : Model -> Features -> result Q)
             models current w m e s l log,
         get models w = Some m ->
         hmm_score m current = Raise e ->
         Recognizer.score l = Some s ->
         exists l',
           Recognizer.word_body hmm_score models current w l log
           = (Ok tt, l', log ++ [EvScore m current])
           /\ get (Recognizer.p l') w = Some 0%Q
           /\ Recognizer.score l' = Some s
           /\ (Recognizer.best_score l', Recognizer.best_word l')
              = if float_gtb (Fin s) (Recognizer.best_score l)
                then (Fin s, Some w)
                else (Recognizer.best_score l, Recognizer.best_word l))
  /\ (exists ps gs l log,
         Recognizer.recognize_stmt Fixture.scores Fixture.models_AB
           [Fixture.item 2; Fixture.item 3]
           (Recognizer.init [Fixture.item 2; Fixture.item 3]) []
         = (Ok (ps, gs), l, log)
         /\ Fixture.scores 1 (snd (Fixture.item 3)) = Raise ValueError
         /\ nth_error gs 1 = Some (Some "A"%string)
         /\ Recognizer.best_score l = Fin 2
         /\ Fixture.scores 2 (snd (Fixture.item 2)) = Ok 2%Q
         /\ option_map (fun p => get p "A"%string) (nth_error ps 1)
            = Some (Some 0%Q)).
Proof.
  split; [|split].
  - intros. now apply recognize_first_failure with (e := e).
  - intros Model hmm_score models current w m e s l log Hget He Hs.
    eexists. split;
      [exact (word_body_failed Model hmm_score models current w m e s l log
                Hget He Hs)|].
    cbn zeta.
    destruct (float_gtb (Fin s) (Recognizer.best_score l));
      cbn; (split; [apply dict_get_set|split; [exact Hs|reflexivity]]).
  - do 4 eexists. split; [vm_compute; reflexivity|].
    repeat split.
Qed.

Section RecognizerScores.
Import Recognizer RecognizerSpec.
Variable Model : Type.
Variable hmm_score : Model -> Features -> result Q.

Local Abbreviation word_body := (word_body hmm_score).
Local Abbreviation item_body := (item_body hmm_score).
Local Abbreviation recognize := (recognize hmm_score).
Local Abbreviation score_of := (score_of hmm_score).
Local Abbreviation all_score := (all_score hmm_score).

Lemma dict_get_set_other (V : Type) (d : dict V) k k' v :
  k <> k' -> get (Dict.set d k v) k' = get d k'.
Proof.
  intros Hne. induction d as [|[k0 v0] d IH]; cbn.
  - destruct (String.eqb_spec k' k); [congruence|reflexivity].
  - destruct (String.eqb_spec k k0) as [->|Hk]; cbn.
    + destruct (String.eqb_spec k' k0); [congruence|reflexivity].
    + destruct (String.eqb_spec k' k0); [reflexivity|exact IH].
Qed.

Lemma get_record sc ws : forall d w,
  get (record sc ws d) w = if in_dec string_dec w ws then Some (sc w)
                           else get d w.
Proof.
  induction ws as [|x ws IH]; intros d w; cbn [record fold_left].
  - reflexivity.
  - fold (record sc ws (Dict.set d x (sc x))). rewrite IH.
    destruct (in_dec string_dec w ws) as [Hin|Hnin].
    + destruct (in_dec string_dec w (x :: ws)) as [_|Hn];
        [reflexivity|exfalso; apply Hn; now right].
    + destruct (string_dec x w) as [->|Hne].
      * rewrite dict_get_set.
        destruct (in_dec string_dec w (w :: ws)) as [_|Hn];
          [reflexivity|exfalso; apply Hn; now left].
      * rewrite dict_get_set_other by exact Hne.
        destruct (in_dec string_dec w (x :: ws)) as [[H|H]|_];
          [congruence|contradiction|reflexivity].
Qed.

Lemma leads_step sc seen b w :
  leads sc seen b -> leads sc (seen ++ [w]) (challenge sc b w).
Proof.
  intros [[-> ->]|(w0 & before & after & -> & -> & Hmax & Hfirst)].
  - right. exists w, [], []. cbn. repeat split.
    + intros w' [<-|[]]. apply Qle_refl.
    + intros w' [].
  - unfold challenge. cbn [fst float_gtb float_ltb].
    destruct (Qltb (sc w0) (sc w)) eqn:Hlt.
    + apply Qltb_lt in Hlt. right.
      exists w, (before ++ w0 :: after), []. repeat split.
      * intros w' Hin. apply in_app_or in Hin as [Hin|[<-|[]]].
        -- apply Qlt_le_weak. eapply Qle_lt_trans; [apply Hmax|]; eauto.
        -- apply Qle_refl.
      * intros w' Hin. eapply Qle_lt_trans; [apply Hmax|]; eauto.
    + apply Qltb_ge in Hlt. right.
      exists w0, before, (after ++ [w]). repeat split.
      * now rewrite <- app_assoc.
      * intros w' Hin. apply in_app_or in Hin as [Hin|[<-|[]]]; auto.
      * exact Hfirst.
Qed.

Lemma leads_fold sc ws : forall seen b,
  leads sc seen b ->
  leads sc (seen ++ ws) (fold_left (challenge sc) ws b).
Proof.
  induction ws as [|w ws IH]; intros seen b H; cbn.
  - now rewrite app_nil_r.
  - replace (seen ++ w :: ws) with ((seen ++ [w]) ++ ws)
      by now rewrite <- app_assoc.
    apply IH. now apply leads_step.
Qed.

Lemma word_loop models current ws : forall l log,
  (forall w, In w ws ->
             exists m s, get models w = Some m /\ hmm_score m current = Ok s) ->
  exists l' log',
    for_each ws (word_body models current) l log = (Ok tt, l', log')
    /\ p l' = record (score_of models current) ws (p l)
    /\ (best_score l', best_word l')
       = fold_left (challenge (score_of models current)) ws
                   (best_score l, best_word l)
    /\ probabilities l' = probabilities l
    /\ guesses l' = guesses l.
Proof.
  induction ws as [|w ws IH]; intros l log Hall.
  - exists l, log. repeat split.
  - destruct (Hall w (or_introl eq_refl)) as (m & s & Hget & Hs).
    assert (score_of models current w = s) as Hsc
        by (unfold RecognizerSpec.score_of; now rewrite Hget, Hs).
    pose proof (word_body_scored Model hmm_score models current w m s l log
                  Hget Hs) as Hbody.
    cbv zeta in Hbody.
    destruct (IH (if float_gtb (Fin s) (best_score l)
                  then set_best_word (Some w)
                         (set_best_score (Fin s)
                            (set_p (Dict.set (p l) w s)
                                   (set_score (Some s) l)))
                  else set_p (Dict.set (p l) w s) (set_score (Some s) l))
                 (log ++ [EvScore m current]))
      as (l' & log' & Hrun & Hp & Hb & Hps & Hgs);
      [intros; apply Hall; now right|].
    exists l', log'. cbn [for_each]. unfold bind. rewrite Hbody.
    split; [exact Hrun|].
    cbn [record fold_left]. unfold challenge at 2. cbn [fst]. rewrite Hsc.
    destruct (float_gtb (Fin s) (best_score l));
      (split; [exact Hp|split; [exact Hb|split; [exact Hps|exact Hgs]]]).
Qed.

Lemma list_assign_middle (A : Type) (a : list A) : forall y b v,
  list_assign (a ++ y :: b) (List.length a) v = Ok (a ++ v :: b).
Proof.
  induction a as [|x a IH]; intros y b v; cbn; [reflexivity|].
  now rewrite IH.
Qed.

Lemma seq_split_nth n done (x : nat) rest :
  seq 0 n = done ++ x :: rest -> x = List.length done.
Proof.
  intros H.
  assert (nth (List.length done) (seq 0 n) 0 = x) as Hn.
  { rewrite H, app_nth2, Nat.sub_diag by lia. reflexivity. }
  rewrite seq_nth in Hn; [lia|].
  apply (f_equal (@List.length nat)) in H.
  rewrite length_seq, length_app in H. cbn in H. lia.
Qed.

Lemma item_body_scored models test_set before x after ga g0 gb l log :
  test_set = before ++ x :: after ->
  guesses l = ga ++ g0 :: gb ->
  List.length ga = List.length before ->
  all_score models (snd x) ->
  exists l' log',
    item_body models test_set (List.length before) l log = (Ok tt, l', log')
    /\ probabilities l'
       = probabilities l
           ++ [record (score_of models (snd x)) (keys models) Dict.empty]
    /\ guesses l'
       = ga ++ snd (fold_left (challenge (score_of models (snd x)))
                              (keys models) (NegInf, None)) :: gb.
Proof.
  intros Hts Hg Hlen Hall.
  unfold Recognizer.item_body, get_item_sequences, get_item_Xlengths,
    get_all_sequences, get_all_Xlengths.
  rewrite Hts, !map_app. cbn [map].
  rewrite !nth_error_app2 by (rewrite length_map; lia).
  rewrite !length_map, Nat.sub_diag. cbn [nth_error].
  unfold bind at 1, ret at 1. unfold bind at 1, ret at 1.
  unfold bind at 1, assign at 1. unfold bind at 1, assign at 1.
  unfold bind at 1, assign at 1. unfold bind at 1.
  destruct (word_loop models (snd x) (keys models)
              (set_best_score NegInf
                 (set_p Dict.empty (set_best_word None l))) log Hall)
    as (l1 & log1 & Hrun & Hp & Hb & Hps & Hgs).
  rewrite Hrun.
  unfold bind, assign, read, lift.
  cbn [guesses set_probabilities]. rewrite Hgs.
  cbn [guesses set_best_score set_p set_best_word]. rewrite Hg.
  rewrite <- Hlen, list_assign_middle.
  eexists _, _. split; [reflexivity|].
  cbn [probabilities guesses set_guesses set_probabilities].
  rewrite Hps, Hp. cbn [probabilities p set_best_score set_p set_best_word].
  split; [reflexivity|].
  cbn [best_score best_word set_best_score set_p set_best_word] in Hb.
  rewrite <- Hb. reflexivity.
Qed.

Lemma recognize_scored models test_set :
  (forall x, In x test_set -> all_score models (snd x)) ->
  recognize models test_set
  = Ok (map (fun x => record (score_of models (snd x)) (keys models)
                        Dict.empty) test_set,
        map (fun x => snd (fold_left (challenge (score_of models (snd x)))
                                     (keys models) (NegInf, None)))
            test_set).
Proof.
  intros Hall.
  set (pm := fun x : list Sequence * Features =>
               record (score_of models (snd x)) (keys models) Dict.empty).
  set (gm := fun x : list Sequence * Features =>
               snd (fold_left (challenge (score_of models (snd x)))
                              (keys models) (NegInf, None))).
  unfold Recognizer.recognize, recognize_stmt.
  destruct (for_each_total _ _ _ (item_body models test_set)
              (fun done l _ =>
                 exists before after,
                   test_set = before ++ after
                   /\ List.length before = List.length done
                   /\ probabilities l = map pm before
                   /\ guesses l
                      = map gm before
                          ++ repeat (Some EmptyString) (List.length after))
              (seq 0 (List.length (get_all_sequences test_set))))
    with (l := init test_set) (log := @nil (event Model))
    as (l & log & Hrun & before & after & Hts & Hlen & Hps & Hgs).
  - intros done i rest l log Hseq (before & after & Hts & Hlen & Hps & Hgs).
    pose proof (seq_split_nth _ _ _ _ Hseq) as Hi.
    assert (List.length done < List.length test_set) as Hlt.
    { apply (f_equal (@List.length nat)) in Hseq.
      unfold get_all_sequences in Hseq.
      rewrite length_seq, length_map, length_app in Hseq. cbn in Hseq. lia. }
    destruct after as [|x after].
    { rewrite app_nil_r in Hts. subst test_set. lia. }
    destruct (item_body_scored models test_set before x after
                (map gm before) (Some EmptyString)
                (repeat (Some EmptyString) (List.length after)) l log
                Hts Hgs)
      as (l' & log' & Hbody & Hps' & Hgs').
    { now rewrite length_map. }
    { apply Hall. rewrite Hts. apply in_or_app. right. now left. }
    exists l', log'. split; [now rewrite Hi, <- Hlen|].
    exists (before ++ [x]), after. split; [now rewrite <- app_assoc|].
    split; [rewrite !length_app; cbn; lia|]. split.
    + rewrite Hps', Hps, map_app. reflexivity.
    + rewrite Hgs', map_app, <- app_assoc. reflexivity.
  - exists [], test_set. repeat split.
    unfold init, get_all_Xlengths. cbn [guesses map app].
    clear. induction test_set as [|x ts IH]; cbn; [reflexivity|].
    now rewrite IH.
  - unfold bind, read, ret. rewrite Hrun.
    assert (after = []) as ->.
    { apply (f_equal (@List.length _)) in Hts.
      unfold get_all_sequences in Hlen.
      rewrite length_app in Hts. rewrite length_seq, length_map in Hlen.
      destruct after; [reflexivity|cbn in Hts; lia]. }
    rewrite app_nil_r in Hts. subst before. rewrite Hps, Hgs.
    cbn [List.length repeat]. now rewrite app_nil_r.
Qed.

(** When every model of the table scores every test item, [recognize]
    returns one mapping and one guess per item, in order; the mapping of an
    item holds every word's score; and the guess is the first word, in the
    iteration order of the table, whose score is the maximum of the
    mapping: words before it score strictly less.  An empty table gives
    the guess [None]. *)
Theorem recognize_argmax_when_all_score models test_set :
  (forall x, In x test_set -> all_score models (snd x)) ->
  exists ps gs,
    recognize models test_set = Ok (ps, gs)
    /\ List.length ps = List.length test_set
    /\ List.length gs = List.length test_set
    /\ forall i x,
        nth_error test_set i = Some x ->
        exists p g,
          nth_error ps i = Some p
          /\ nth_error gs i = Some g
          /\ (forall w m,
                 In w (keys models) -> get models w = Some m ->
                 exists s, hmm_score m (snd x) = Ok s /\ get p w = Some s)
          /\ ((keys models = [] /\ g = None)
              \/ exists w s before after,
                  g = Some w
                  /\ keys models = before ++ w :: after
                  /\ get p w = Some s
                  /\ (forall w' s', get p w' = Some s' -> (s' <= s)%Q)
                  /\ (forall w' s',
                         In w' before -> get p w' = Some s' -> (s' < s)%Q)).
Proof.
  intros Hall. rewrite (recognize_scored models test_set Hall).
  eexists _, _. split; [reflexivity|].
  rewrite !length_map. split; [reflexivity|]. split; [reflexivity|].
  intros i x Hx. rewrite !nth_error_map, Hx. cbn [option_map].
  eexists _, _. split; [reflexivity|]. split; [reflexivity|].
  set (sc := score_of models (snd x)).
  assert (forall w, get (record sc (keys models) Dict.empty) w
                    = if in_dec string_dec w (keys models)
                      then Some (sc w) else None) as Hget
      by (intros w; apply get_record).
  split.
  - intros w m Hin Hm.
    destruct (Hall x (nth_error_In _ _ Hx) w Hin) as (m' & s & Hm' & Hs).
    rewrite Hm in Hm'. injection Hm' as <-.
    exists s. split; [exact Hs|]. rewrite Hget.
    destruct (in_dec string_dec w (keys models)); [|contradiction].
    subst sc. unfold RecognizerSpec.score_of. now rewrite Hm, Hs.
  - pose proof (leads_fold sc (keys models) [] (NegInf, None)
                  (or_introl (conj eq_refl eq_refl))) as Hl.
    cbn [app] in Hl.
    destruct Hl as [[Hk Hb]|(w & before & after & Hk & Hb & Hmax & Hfirst)].
    + left. split; [exact Hk|]. now rewrite Hb.
    + right. exists w, (sc w), before, after. rewrite Hb. cbn [snd].
      split; [reflexivity|]. split; [exact Hk|]. split; [|split].
      * rewrite Hget.
        destruct (in_dec string_dec w (keys models)) as [_|Hn];
          [reflexivity|].
        exfalso. apply Hn. rewrite Hk. apply in_or_app. right. now left.
      * intros w' s'. rewrite Hget.
        destruct (in_dec string_dec w' (keys models)); [|discriminate].
        intros [= <-]. now apply Hmax.
      * intros w' s' Hin. rewrite Hget.
        destruct (in_dec string_dec w' (keys models)); [|discriminate].
        intros [= <-]. now apply Hfirst.
Qed.

Lemma get_in_keys (V : Type) (d : dict V) w :
  In w (keys d) -> exists v, get d w = Some v.
Proof.
  induction d as [|[k v] d IH]; cbn; [contradiction|].
  intros [<-|Hin].
  - rewrite String.eqb_refl. now exists v.
  - destruct (String.eqb w k); [now exists v|now apply IH].
Qed.

Lemma get_not_in_keys (V : Type) (d : dict V) w :
  ~ In w (keys d) -> get d w = None.
Proof.
  induction d as [|[k v] d IH]; cbn; [reflexivity|].
  intros Hn. destruct (String.eqb_spec w k) as [->|_].
  - exfalso. apply Hn. now left.
  - apply IH. intros H. apply Hn. now right.
Qed.

(** Whatever the scoring does, a word body that returns has stored the
    score, or the sentinel, under the word and has left [score] bound. *)
Lemma word_body_returned models current w m l log l' log' :
  get models w = Some m ->
  word_body models current w l log = (Ok tt, l', log') ->
  p l' = Dict.set (p l) w (score_of models current w)
  /\ probabilities l' = probabilities l
  /\ guesses l' = guesses l
  /\ score l' <> None.
Proof.
  intros Hget Hrun. unfold RecognizerSpec.score_of. rewrite Hget.
  destruct (hmm_score m current) as [s|e] eqn:Hs.
  - rewrite (word_body_scored Model hmm_score models current w m s l log
               Hget Hs) in Hrun.
    cbv zeta in Hrun.
    destruct (float_gtb (Fin s) (best_score l)); injection Hrun as <- _;
      cbn; repeat split; discriminate.
  - destruct (score l) as [s0|] eqn:Hsc.
    + rewrite (word_body_failed Model hmm_score models current w m e s0 l log
                 Hget Hs Hsc) in Hrun.
      cbv zeta in Hrun.
      destruct (float_gtb (Fin s0) (best_score l)); injection Hrun as <- _;
        cbn; rewrite Hsc; repeat split; discriminate.
    + rewrite (word_body_unbound Model hmm_score models current w m e l log
                 Hget Hs Hsc) in Hrun.
      discriminate.
Qed.

(** A word body returns as soon as [score] is bound. *)
Lemma word_body_returns models current w m l log :
  get models w = Some m ->
  score l <> None \/ (exists s, hmm_score m current = Ok s) ->
  exists l' log', word_body models current w l log = (Ok tt, l', log').
Proof.
  intros Hget Hor.
  destruct (hmm_score m current) as [s|e] eqn:Hs.
  - eexists _, _.
    exact (word_body_scored Model hmm_score models current w m s l log
             Hget Hs).
  - destruct (score l) as [s0|] eqn:Hsc.
    + eexists _, _.
      exact (word_body_failed Model hmm_score models current w m e s0 l log
               Hget Hs Hsc).
    + destruct Hor as [H|[s H]]; [congruence|discriminate].
Qed.

Lemma word_loop_returned models current ws : forall l log l' log',
  (forall w, In w ws -> In w (keys models)) ->
  for_each ws (word_body models current) l log = (Ok tt, l', log') ->
  p l' = record (score_of models current) ws (p l)
  /\ probabilities l' = probabilities l
  /\ guesses l' = guesses l
  /\ (score l <> None -> score l' <> None).
Proof.
  induction ws as [|w ws IH]; intros l log l' log' Hsub Hrun.
  - cbn in Hrun. injection Hrun as <- _. repeat split. auto.
  - cbn [for_each] in Hrun. unfold bind in Hrun.
    destruct (word_body models current w l log) as [[[[]|e] l1] log1] eqn:Hb;
      [|discriminate].
    destruct (get_in_keys _ models w (Hsub w (or_introl eq_refl)))
      as (m & Hget).
    destruct (word_body_returned models current w m l log l1 log1 Hget Hb)
      as (Hp1 & Hps1 & Hgs1 & Hsc1).
    destruct (IH l1 log1 l' log' (fun x Hx => Hsub x (or_intror Hx)) Hrun)
      as (Hp & Hps & Hgs & Hsc).
    cbn [record fold_left]. rewrite Hp, Hp1, Hps, Hps1, Hgs, Hgs1.
    repeat split. auto.
Qed.

Lemma word_loop_returns models current ws : forall l log,
  (forall w, In w ws -> In w (keys models)) ->
  score l <> None ->
  exists l' log',
    for_each ws (word_body models current) l log = (Ok tt, l', log').
Proof.
  induction ws as [|w ws IH]; intros l log Hsub Hsc.
  - now exists l, log.
  - destruct (get_in_keys _ models w (Hsub w (or_introl eq_refl)))
      as (m & Hget).
    destruct (word_body_returns models current w m l log Hget (or_introl Hsc))
      as (l1 & log1 & Hb).
    destruct (word_body_returned models current w m l log l1 log1 Hget Hb)
      as (_ & _ & _ & Hsc1).
    destruct (IH l1 log1 (fun x Hx => Hsub x (or_intror Hx)) Hsc1)
      as (l' & log' & Hrun).
    exists l', log'. cbn [for_each]. unfold bind. now rewrite Hb.
Qed.

Lemma list_assign_length (A : Type) (xs : list A) : forall i v,
  i < List.length xs ->
  exists r, list_assign xs i v = Ok r /\ List.length r = List.length xs.
Proof.
  induction xs as [|x xs IH]; intros i v Hi; cbn in Hi; [lia|].
  destruct i as [|i]; cbn.
  - now eexists.
  - destruct (IH i v) as (r & -> & Hr); [lia|].
    eexists. split; [reflexivity|]. cbn. now rewrite Hr.
Qed.

(** One item, given what the loop over the words did. *)
Lemma item_body_after_words models test_set before x after l log r1 l1 log1 :
  test_set = before ++ x :: after ->
  List.length (guesses l) = List.length test_set ->
  for_each (keys models) (word_body models (snd x))
    (set_best_score NegInf (set_p Dict.empty (set_best_word None l))) log
  = (r1, l1, log1) ->
  (r1 = Ok tt -> guesses l1 = guesses l) ->
  match r1 with
  | Ok _ =>
      exists l',
        item_body models test_set (List.length before) l log
        = (Ok tt, l', log1)
        /\ probabilities l' = probabilities l1 ++ [p l1]
        /\ List.length (guesses l') = List.length test_set
        /\ score l' = score l1
  | Raise e =>
      item_body models test_set (List.length before) l log
      = (Raise e, l1, log1)
  end.
Proof.
  intros -> Hlen Hrun Hgs.
  assert (item_body models (before ++ x :: after) (List.length before) l log
          = bind (for_each (keys models) (word_body models (snd x)))
              (fun _ =>
                 bind (assign (fun l => set_probabilities
                                          (probabilities l ++ [p l]) l))
                   (fun _ =>
                      bind (read best_word) (fun w =>
                      bind (read guesses) (fun g =>
                      bind (lift (list_assign g (List.length before) w))
                        (fun g' => assign (set_guesses g'))))))
              (set_best_score NegInf
                 (set_p Dict.empty (set_best_word None l))) log) as Heq.
  { unfold Recognizer.item_body, get_item_sequences, get_item_Xlengths,
      get_all_sequences, get_all_Xlengths.
    rewrite !map_app. cbn [map].
    rewrite !nth_error_app2 by (rewrite length_map; lia).
    rewrite !length_map, Nat.sub_diag. cbn [nth_error].
    reflexivity. }
  destruct r1 as [[]|e]; rewrite Heq; unfold bind at 1; rewrite Hrun;
    [|reflexivity].
  unfold bind, assign, read, lift.
  cbn [guesses set_probabilities]. rewrite (Hgs eq_refl).
  destruct (list_assign_length _ (guesses l) (List.length before)
              (best_word
                 (set_probabilities (probabilities l1 ++ [p l1]) l1)))
    as (g' & Hg' & Hlen').
  { rewrite Hlen, length_app. cbn. lia. }
  rewrite Hg'. eexists. split; [reflexivity|].
  cbn. split; [reflexivity|]. split; [congruence|reflexivity].
Qed.

Lemma get_some_in_keys (V : Type) (d : dict V) w v :
  get d w = Some v -> In w (keys d).
Proof.
  intros H. destruct (in_dec string_dec w (keys d)) as [Hin|Hn];
    [exact Hin|].
  rewrite (get_not_in_keys _ d w Hn) in H. discriminate.
Qed.

Lemma item_position test_set done (i : nat) rest :
  seq 0 (List.length (get_all_sequences test_set)) = done ++ i :: rest ->
  i = List.length done
  /\ exists before x after,
      test_set = before ++ x :: after /\ List.length before = i.
Proof.
  intros Hseq. pose proof (seq_split_nth _ _ _ _ Hseq) as Hi.
  split; [exact Hi|].
  assert (i < List.length test_set) as Hlt.
  { apply (f_equal (@List.length nat)) in Hseq.
    unfold get_all_sequences in Hseq.
    rewrite length_seq, length_map, length_app in Hseq. cbn in Hseq. lia. }
  destruct (nth_error test_set i) as [x|] eqn:Hx.
  - apply nth_error_split in Hx as (before & after & Hts & Hlen).
    now exists before, x, after.
  - apply nth_error_None in Hx. lia.
Qed.

Lemma firstn_exact (A : Type) (a b : list A) :
  firstn (List.length a) (a ++ b) = a.
Proof.
  induction a as [|y a IH]; cbn; [now destruct b|now rewrite IH].
Qed.

Lemma firstn_succ (A : Type) (a : list A) x b :
  firstn (S (List.length a)) (a ++ x :: b) = a ++ [x].
Proof.
  induction a as [|y a IH]; cbn; [now destruct b|].
  cbn in IH. now rewrite IH.
Qed.

(** Whenever [recognize] returns, it returns one mapping and one guess per
    test item, and the mapping of an item has exactly the words of the
    table as keys: under each word the score of its model on the item, or
    the sentinel 0 where that scoring raised. *)
Theorem recognize_mappings_complete models test_set ps gs :
  recognize models test_set = Ok (ps, gs) ->
  List.length ps = List.length test_set
  /\ List.length gs = List.length test_set
  /\ forall i x,
      nth_error test_set i = Some x ->
      exists p,
        nth_error ps i = Some p
        /\ (forall w m,
               get models w = Some m ->
               get p w = Some match hmm_score m (snd x) with
                              | Ok s => s
                              | Raise _ => 0%Q
                              end)
        /\ (forall w, get models w = None -> get p w = None).
Proof.
  set (pm := fun x : list Sequence * Features =>
               record (score_of models (snd x)) (keys models) Dict.empty).
  unfold Recognizer.recognize, recognize_stmt, bind at 1.
  destruct (for_each _ _ _ _) as [[r l] log] eqn:Hrun.
  destruct r as [[]|e]; [|discriminate].
  unfold bind, read, ret. cbn [fst]. intros [= <- <-].
  assert (probabilities l
          = map pm (firstn (List.length
                              (seq 0 (List.length
                                        (get_all_sequences test_set))))
                           test_set)
          /\ List.length (guesses l) = List.length test_set) as [Hps Hgs].
  { apply (for_each_returned _ _ _ (item_body models test_set)
             (fun done l _ =>
                probabilities l = map pm (firstn (List.length done) test_set)
                /\ List.length (guesses l) = List.length test_set)
             (seq 0 (List.length (get_all_sequences test_set))))
      with (l := init test_set) (log := @nil (event Model)) (log' := log);
      [| |exact Hrun].
    - intros done i rest l0 log0 l' log' Hseq [Hps Hgs] Hbody.
      destruct (item_position test_set done i rest Hseq)
        as (Hi & before & x & after & Hts & Hlen).
      destruct (for_each (keys models) (word_body models (snd x))
                  (set_best_score NegInf
                     (set_p Dict.empty (set_best_word None l0))) log0)
        as [[r1 l1] log1] eqn:Hwords.
      destruct r1 as [[]|e].
      + destruct (word_loop_returned models (snd x) (keys models) _ _ _ _
                    (fun w H => H) Hwords) as (Hp1 & Hps1 & Hgs1 & _).
        pose proof (item_body_after_words models test_set before x after
                      l0 log0 (Ok tt) l1 log1 Hts Hgs Hwords
                      (fun _ => Hgs1)) as Hitem.
        cbn in Hitem. destruct Hitem as (l2 & Hitem & Hps2 & Hgs2 & _).
        rewrite Hlen, Hbody in Hitem. injection Hitem as <- _.
        split; [|exact Hgs2].
        rewrite Hps2, Hps1, Hp1. cbn [probabilities p set_best_score set_p
                                       set_best_word].
        rewrite Hps, length_app. cbn [List.length].
        rewrite Nat.add_1_r, <- Hi, <- Hlen, Hts.
        rewrite firstn_exact, firstn_succ, map_app. reflexivity.
      + pose proof (item_body_after_words models test_set before x after
                      l0 log0 (Raise e) l1 log1 Hts Hgs Hwords) as Hitem.
        cbn in Hitem. rewrite Hlen, Hbody in Hitem.
        assert (Ok tt = Raise e) as Habs; [|discriminate].
        assert (@Raise unit e = Ok tt -> guesses l1 = guesses l0) as Hg
            by discriminate.
        specialize (Hitem Hg). now injection Hitem.
    - split; [reflexivity|].
      unfold init, get_all_Xlengths. cbn [guesses]. now rewrite !length_map. }
  unfold get_all_sequences in Hps. rewrite length_seq, length_map in Hps.
  rewrite firstn_all in Hps.
  split; [now rewrite Hps, length_map|]. split; [exact Hgs|].
  intros i x Hx. exists (pm x). split; [now rewrite Hps, nth_error_map, Hx|].
  subst pm. cbn beta. split.
  - intros w m Hget. rewrite get_record.
    destruct (in_dec string_dec w (keys models)) as [_|Hn].
    + unfold RecognizerSpec.score_of. now rewrite Hget.
    + exfalso. apply Hn. now apply get_some_in_keys with (v := m).
  - intros w Hget. rewrite get_record.
    destruct (in_dec string_dec w (keys models)) as [Hin|_]; [|reflexivity].
    apply get_in_keys in Hin as (m & Hm). congruence.
Qed.

(** [recognize] returns whenever the first word of the table scores the
    first test item (or the table or the test set is empty): once [score]
    is bound, no later scoring failure can make it raise. *)
Theorem recognize_returns_after_first_score models test_set :
  (forall w m rest x xs,
      models = (w, m) :: rest -> test_set = x :: xs ->
      exists s, hmm_score m (snd x) = Ok s) ->
  exists ps gs, recognize models test_set = Ok (ps, gs).
Proof.
  intros Hfirst. unfold Recognizer.recognize, recognize_stmt.
  destruct (for_each_total _ _ _ (item_body models test_set)
              (fun done l _ =>
                 List.length (guesses l) = List.length test_set
                 /\ (keys models = [] \/ done = [] \/ score l <> None))
              (seq 0 (List.length (get_all_sequences test_set))))
    with (l := init test_set) (log := @nil (event Model))
    as (l & log & Hrun & _).
  - intros done i rest l log Hseq [Hgs Hsc].
    destruct (item_position test_set done i rest Hseq)
      as (Hi & before & x & after & Hts & Hlen).
    assert (exists l1 log1,
               for_each (keys models) (word_body models (snd x))
                 (set_best_score NegInf
                    (set_p Dict.empty (set_best_word None l))) log
               = (Ok tt, l1, log1)
               /\ (keys models = [] \/ score l1 <> None))
      as (l1 & log1 & Hwords & Hsc1).
    { destruct models as [|[w m] rest'] eqn:Hm.
      { eexists _, _. split; [reflexivity|now left]. }
      rewrite <- Hm in *.
      destruct Hsc as [Hk|[Hd|Hsc]].
      - rewrite Hm in Hk. discriminate.
      - subst done. cbn in Hi. subst i.
        destruct before; [|discriminate]. cbn in Hts.
        destruct (Hfirst w m rest' x after Hm Hts) as (s & Hs).
        assert (get models w = Some m) as Hget
            by (rewrite Hm; cbn; now rewrite String.eqb_refl).
        assert (keys models = w :: keys rest') as Hkeys by now rewrite Hm.
        destruct (word_body_returns models (snd x) w m
                    (set_best_score NegInf
                       (set_p Dict.empty (set_best_word None l))) log Hget
                    (or_intror (ex_intro _ s Hs))) as (la & loga & Hb).
        destruct (word_body_returned models (snd x) w m _ _ la loga Hget Hb)
          as (_ & _ & _ & Hsca).
        destruct (word_loop_returns models (snd x) (keys rest') la loga)
          as (l1 & log1 & Hrest); [|exact Hsca|].
        { intros w' Hin. rewrite Hkeys. now right. }
        destruct (word_loop_returned models (snd x) (keys rest') la loga
                    l1 log1) as (_ & _ & _ & Hsc1); [|exact Hrest|].
        { intros w' Hin. rewrite Hkeys. now right. }
        exists l1, log1. split; [|right; auto].
        rewrite Hkeys. cbn [for_each]. unfold bind. now rewrite Hb.
      - destruct (word_loop_returns models (snd x) (keys models)
                    (set_best_score NegInf
                       (set_p Dict.empty (set_best_word None l))) log)
          as (l1 & log1 & Hwords); [auto|exact Hsc|].
        destruct (word_loop_returned models (snd x) (keys models) _ _
                    l1 log1 (fun w' H => H) Hwords) as (_ & _ & _ & Hsc1).
        exists l1, log1. split; [exact Hwords|right; now apply Hsc1]. }
    destruct (word_loop_returned models (snd x) (keys models) _ _ l1 log1
                (fun w' H => H) Hwords) as (_ & _ & Hgs1 & _).
    pose proof (item_body_after_words models test_set before x after
                  l log (Ok tt) l1 log1 Hts Hgs Hwords (fun _ => Hgs1))
      as Hitem.
    cbn in Hitem. destruct Hitem as (l' & Hitem & _ & Hgs' & Hsc').
    exists l', log1. rewrite <- Hlen. split; [exact Hitem|].
    split; [exact Hgs'|].
    destruct Hsc1 as [Hk|Hsc1]; [now left|].
    right. right. now rewrite Hsc'.
  - split; [|right; now left].
    unfold init, get_all_Xlengths. cbn [guesses]. now rewrite !length_map.
  - unfold bind, read, ret. rewrite Hrun. now eexists _, _.
Qed.
End RecognizerScores.

(** ** The constructor and SelectorConstant *)

Section SelectorBase.
Import ModelSelector.
Variable Model : Type.
Variable hmm_fit : nat -> nat -> Features -> result Model.

Lemma get_none_not_in_keys (V : Type) (d : dict V) w :
  get d w = None <-> ~ In w (keys d).
Proof.
  split.
  - intros H Hin. apply get_in_keys in Hin as (v & Hv). congruence.
  - apply get_not_in_keys.
Qed.

(** [ModelSelector.__init__] raises [KeyError] exactly when the word is
    missing from one of the two dictionaries; otherwise the selector it
    builds keeps both dictionaries, and its [sequences] and [(X, lengths)]
    are the word's own entries in them. *)
Theorem init_entries_of_this_word
  (all_word_sequences : dict (list Sequence))
  (all_word_Xlengths : dict Features) (this_word : string)
  (n_constant min_n max_n random_state : nat) (verbose : bool) :
  match init all_word_sequences all_word_Xlengths this_word
             n_constant min_n max_n random_state verbose with
  | Raise e =>
      e = KeyError
      /\ (~ In this_word (keys all_word_sequences)
          \/ ~ In this_word (keys all_word_Xlengths))
  | Ok self =>
      In this_word (keys all_word_sequences)
      /\ In this_word (keys all_word_Xlengths)
      /\ words self = all_word_sequences
      /\ hwords self = all_word_Xlengths
      /\ ModelSelector.this_word self = this_word
      /\ get (words self) (ModelSelector.this_word self)
         = Some (sequences self)
      /\ get (hwords self) (ModelSelector.this_word self)
         = Some (X self, lengths self)
      /\ (ModelSelector.n_constant self, min_n_components self,
          max_n_components self, ModelSelector.random_state self)
         = (n_constant, min_n, max_n, random_state)
  end.
Proof.
  unfold init.
  destruct (get all_word_sequences this_word) as [sq|] eqn:Hs.
  - destruct (get all_word_Xlengths this_word) as [[x ls]|] eqn:Hx.
    + cbn. repeat split; auto.
      * now apply get_some_in_keys with (v := sq).
      * now apply get_some_in_keys with (v := (x, ls)).
    + split; [reflexivity|]. right. now apply get_none_not_in_keys.
  - split; [reflexivity|]. left. now apply get_none_not_in_keys.
Qed.

(** [SelectorConstant.select] never raises and ignores the search range:
    it requests exactly one fit, of [n_constant] states on the word's own
    data with the selector's seed, and returns that model, or [None]
    whatever the fit raised. *)
Theorem constant_select_one_fit (self : t) :
  let data := (X self, lengths self) in
  exists best,
    SelectorConstant.select hmm_fit self
    = (Ok best, [EvFit (n_constant self) data])
    /\ (forall m,
           best = Some m
           <-> hmm_fit (n_constant self) (random_state self) data = Ok m)
    /\ (best = None
        <-> exists e,
            hmm_fit (n_constant self) (random_state self) data = Raise e).
Proof.
  intros data.
  unfold SelectorConstant.select, SelectorConstant.select_stmt, base_model,
    try_except, call_fit, bind, emit, lift, ret.
  fold data. destruct (hmm_fit _ _ data) as [m|e].
  - exists (Some m). split; [reflexivity|]. split.
    + intros m'. split; congruence.
    + split; [discriminate|intros [e H]; discriminate].
  - exists None. split; [reflexivity|]. split.
    + intros m'. split; discriminate.
    + split; [now exists e|reflexivity].
Qed.

End SelectorBase.

(** ** SelectorBIC *)

Section BICFacts.
Import ModelSelector SelectorBIC BICSpec.
Variable Model : Type.
Variable hmm_fit : nat -> nat -> Features -> result Model.
Variable hmm_score : Model -> Features -> result Q.
Variable np_log : nat -> Q.

Local Abbreviation scored := (scored hmm_fit hmm_score np_log).
Local Abbreviation bic_inv := (bic_inv hmm_fit hmm_score np_log).
Local Abbreviation reached := (reached hmm_fit hmm_score np_log).
Local Abbreviation candidate := (candidate hmm_fit hmm_score np_log).
Local Abbreviation select := (select hmm_fit hmm_score np_log).

Lemma in_fit_events n d num d1 (m : Model) d2 log :
  In (EvFit n d) (log ++ [EvFit num d1] ++ [EvScore m d2]) ->
  In (EvFit n d) log \/ (n = num /\ d = d1).
Proof.
  rewrite !in_app_iff. cbn.
  intros [H|[[H|[]]|[H|[]]]]; [now left| |discriminate].
  injection H as <- <-. now right.
Qed.

Lemma candidate_scored self num m v l log :
  scored self num = Some (m, v) ->
  candidate self num l log =
    (Ok tt,
     if float_ltb (Fin v) (best_score l)
     then {| best_score := Fin v; best_model := Some m |} else l,
     log ++ [EvFit num (X self, lengths self)]
         ++ [EvScore m (X self, lengths self)]).
Proof.
  unfold BICSpec.scored, SelectorBIC.candidate, base_model, call_fit,
    call_score_opt, call_score, len_X0, try_except, bind, emit, lift, ret,
    read, when, assign.
  destruct (hmm_fit _ _ _) as [m'|]; [|discriminate].
  destruct (hmm_score _ _) as [logL|]; [|discriminate].
  destruct (X self) as [|f rest] eqn:HX; [discriminate|].
  intros [= <- <-]. rewrite <- app_assoc.
  destruct (float_ltb _ (best_score l)); reflexivity.
Qed.

Lemma candidate_failed self num l log :
  scored self num = None ->
  exists e log',
    candidate self num l log = (Raise e, l, log')
    /\ forall n d,
        In (EvFit n d) log'
        <-> In (EvFit n d) log \/ (n = num /\ d = (X self, lengths self)).
Proof.
  unfold BICSpec.scored, SelectorBIC.candidate, base_model, call_fit,
    call_score_opt, call_score, len_X0, try_except, bind, emit, lift, ret,
    read, when, assign, raise.
  destruct (hmm_fit _ _ _) as [m'|e1].
  - destruct (hmm_score _ _) as [logL|e2].
    + destruct (X self) as [|f rest] eqn:HX; [|discriminate].
      intros _. eexists _, _. split; [reflexivity|].
      intros n d. rewrite !in_app_iff. cbn. split.
      * intros [[Hin|[Hin|[]]]|[Hin|[]]]; try discriminate; auto.
        injection Hin as <- <-. now right.
      * intros [Hin|[-> ->]]; auto.
    + intros _. eexists _, _. split; [reflexivity|].
      intros n d. rewrite !in_app_iff. cbn. split.
      * intros [[Hin|[Hin|[]]]|[Hin|[]]]; try discriminate; auto.
        injection Hin as <- <-. now right.
      * intros [Hin|[-> ->]]; auto.
  - intros _. eexists _, _. split; [reflexivity|].
    intros n d. rewrite !in_app_iff. cbn. split.
    + intros [Hin|[Hin|[]]]; auto. injection Hin as <- <-. now right.
    + intros [Hin|[-> ->]]; auto.
Qed.

Lemma loop_fits self nums : forall l log r l' log',
  for_each nums (candidate self) l log = (r, l', log') ->
  forall n d,
    In (EvFit n d) log'
    <-> In (EvFit n d) log
        \/ (In n (reached self nums) /\ d = (X self, lengths self)).
Proof.
  induction nums as [|num rest IH]; intros l log r l' log' Hrun n d.
  - cbn in Hrun. injection Hrun as _ _ <-. cbn. tauto.
  - cbn [for_each] in Hrun. unfold bind in Hrun.
    cbn [BICSpec.reached].
    destruct (scored self num) as [[m v]|] eqn:Hs.
    + rewrite (candidate_scored _ _ _ _ _ _ Hs) in Hrun.
      rewrite (IH _ _ _ _ _ Hrun n d). rewrite !in_app_iff. cbn. split.
      * intros [[Hin|[[Hin|[]]|[Hin|[]]]]|[Hin ->]]; try discriminate; auto.
        injection Hin as <- <-. auto.
      * intros [Hin|[[->|Hin] ->]]; auto.
    + destruct (candidate_failed self num l log Hs) as (e & lg & Heq & Hlog).
      rewrite Heq in Hrun. injection Hrun as _ _ <-.
      rewrite Hlog. cbn. split.
      * intros [Hin|[-> ->]]; auto.
      * intros [Hin|[[->|[]] ->]]; auto.
Qed.

Lemma reached_seq self len : forall lo n,
  In n (reached self (seq lo len))
  <-> lo <= n < lo + len
      /\ forall k, lo <= k < n -> scored self k <> None.
Proof.
  induction len as [|len IH]; intros lo n; cbn [seq BICSpec.reached].
  - cbn. split; [contradiction|lia].
  - split.
    + intros [<-|Hin].
      * split; [lia|]. intros k Hk. lia.
      * destruct (scored self lo) eqn:Hs; [|destruct Hin].
        apply IH in Hin as [Hr Hall]. split; [lia|].
        intros k Hk. destruct (Nat.eq_dec k lo) as [->|Hne].
        -- congruence.
        -- apply Hall. lia.
    + intros [Hr Hall]. destruct (Nat.eq_dec n lo) as [->|Hne]; [now left|].
      right. destruct (scored self lo) eqn:Hs.
      * apply IH. split; [lia|]. intros k Hk. apply Hall. lia.
      * exfalso. apply (Hall lo); [lia|exact Hs].
Qed.

Lemma bic_inv_candidate self num l log r l' log' :
  In num (range self) ->
  bic_inv self l log ->
  candidate self num l log = (r, l', log') ->
  bic_inv self l' log'.
Proof.
  intros Hnum [Hmin Hbest] Hrun.
  destruct (scored self num) as [[m v]|] eqn:Hs.
  - rewrite (candidate_scored _ _ _ _ _ _ Hs) in Hrun.
    destruct (float_ltb (Fin v) (best_score l)) eqn:Hlt;
      injection Hrun as _ <- <-.
    + split.
      * intros n m0 v0 Hin Hs0.
        apply in_fit_events in Hin as [Hin'|[-> _]].
        -- destruct (Hmin _ _ _ Hin' Hs0)
             as (n' & m' & v' & _ & _ & _ & Hb & Hle).
           exists num, m, v. repeat split; auto.
           rewrite Hb in Hlt. cbn in Hlt. apply Qltb_lt in Hlt.
           apply Qlt_le_weak. eapply Qlt_le_trans; eauto.
        -- rewrite Hs in Hs0. injection Hs0 as <- <-.
           exists num, m, v. repeat split; auto. apply Qle_refl.
      * right. exists num, m, v. repeat split; auto.
    + split.
      * intros n m0 v0 Hin Hs0.
        apply in_fit_events in Hin as [Hin'|[-> _]].
        -- eauto.
        -- rewrite Hs in Hs0. injection Hs0 as <- <-.
           destruct Hbest as [[_ Hb]|(n' & m' & v' & H1 & H2 & H3 & Hb)].
           ++ rewrite Hb in Hlt. discriminate.
           ++ exists n', m', v'. repeat split; auto.
              rewrite Hb in Hlt. cbn in Hlt. now apply Qltb_ge in Hlt.
      * exact Hbest.
  - destruct (candidate_failed self num l log Hs) as (e & lg & Heq & Hlog).
    rewrite Heq in Hrun. injection Hrun as _ <- <-.
    split; [|exact Hbest].
    intros n m0 v0 Hin Hs0.
    apply Hlog in Hin as [Hin'|[-> _]]; [eauto|]. congruence.
Qed.

(** With [d] the dimensionality of the feature frames and [N] their
    number, every state count that [SelectorBIC.select] fits and whose fit
    and score succeed is compared under
    [BIC = -2*logL + (n*(n-1) + 2*d*n) * ln N], and the model returned
    belongs to a state count of the range whose BIC is at most the BIC of
    each of them.  [select] always returns.  The state counts it fits are
    those of the range before which no state count fails to fit or to
    score. *)
Theorem bic_select_minimal self f rest :
  X self = f :: rest ->
  let data := (X self, lengths self) in
  let BIC (n : nat) (logL : Q) : Q :=
    ((-2 # 1) * logL
     + inject_Z (Z.of_nat n * (Z.of_nat n - 1)
                 + 2 * Z.of_nat (List.length f) * Z.of_nat n)
       * np_log (List.length (X self)))%Q in
  exists best log,
    select self = (Ok best, log)
    /\ (forall n m logL,
           In (EvFit n data) log ->
           hmm_fit n (random_state self) data = Ok m ->
           hmm_score m data = Ok logL ->
           exists n' m' logL',
             In n' (range self)
             /\ hmm_fit n' (random_state self) data = Ok m'
             /\ hmm_score m' data = Ok logL'
             /\ best = Some m'
             /\ (BIC n' logL' <= BIC n logL)%Q)
    /\ (forall n,
           In (EvFit n data) log
           <-> In n (range self)
               /\ forall k,
                   min_n_components self <= k < n ->
                   exists m logL,
                     hmm_fit k (random_state self) data = Ok m
                     /\ hmm_score m data = Ok logL).
Proof.
  intros HX data BIC.
  unfold SelectorBIC.select, SelectorBIC.select_stmt, try_except, bind.
  destruct (for_each (py_range _ _) _ _ _) as [[r l] log] eqn:Hrun.
  assert (bic_inv self l log) as [Hmin _].
  { apply (for_each_invariant _ _ _ (candidate self) (bic_inv self)
             (range self)) with (l := init_locals Model) (log := [])
                                (r := r); [| |exact Hrun].
    - intros num l0 log0 r0 l1 log1 Hin.
      now apply bic_inv_candidate.
    - split; [intros ? ? ? []|left; split; reflexivity]. }
  exists (best_model l), log. split; [|split].
  - destruct r as [[]|e]; reflexivity.
  - intros n m logL Hin Hfit Hscore.
    assert (scored self n = Some (m, BIC n logL)) as Hs.
    { unfold BICSpec.scored. fold data. rewrite Hfit, Hscore, HX. reflexivity. }
    destruct (Hmin _ _ _ Hin Hs) as (n' & m' & v' & Hr & Hs' & Hb & _ & Hle).
    unfold BICSpec.scored in Hs'. fold data in Hs'.
    destruct (hmm_fit n' _ data) as [m1|] eqn:Hf'; [|discriminate].
    destruct (hmm_score m1 data) as [l1|] eqn:Hsc'; [|discriminate].
    rewrite HX in Hs'. injection Hs' as <- <-.
    exists n', m1, l1. repeat split; auto.
  - intros n. rewrite (loop_fits self _ _ _ _ _ _ Hrun n data).
    unfold py_range. rewrite reached_seq. unfold range, py_range.
    rewrite in_seq. cbn [In].
    assert (forall k,
               scored self k <> None
               <-> exists m logL,
                   hmm_fit k (random_state self) data = Ok m
                   /\ hmm_score m data = Ok logL) as Hsc.
    { intros k. unfold BICSpec.scored. fold data. rewrite HX.
      destruct (hmm_fit k _ data) as [m|] eqn:Hf;
        [destruct (hmm_score m data) as [s|] eqn:Hs|].
      - split; [intros _; now exists m, s|discriminate].
      - split; [congruence|].
        intros (m0 & s0 & [= <-] & Hs0). congruence.
      - split; [congruence|intros (? & ? & ? & _); discriminate]. }
    split.
    + intros [[]|[[Hr Hall] _]]. split; [exact Hr|].
      intros k Hk. apply Hsc. now apply Hall.
    + intros [Hr Hall]. right. split; [|reflexivity]. split; [exact Hr|].
      intros k Hk. apply Hsc. now apply Hall.
Qed.

Lemma scored_some self f rest k :
  X self = f :: rest ->
  scored self k <> None
  <-> exists m logL,
      hmm_fit k (random_state self) (X self, lengths self) = Ok m
      /\ hmm_score m (X self, lengths self) = Ok logL.
Proof.
  intros HX. unfold BICSpec.scored. rewrite HX.
  destruct (hmm_fit k _ _) as [m|] eqn:Hf;
    [destruct (hmm_score m _) as [s|] eqn:Hs|].
  - split; [intros _; now exists m, s|discriminate].
  - split; [congruence|].
    intros (m0 & s0 & [= <-] & Hs0). congruence.
  - split; [congruence|intros (? & ? & ? & _); discriminate].
Qed.

Lemma candidate_keeps_model self num l log r l' log' :
  best_model l <> None ->
  candidate self num l log = (r, l', log') ->
  best_model l' <> None.
Proof.
  intros Hb Hrun. destruct (scored self num) as [[m v]|] eqn:Hs.
  - rewrite (candidate_scored _ _ _ _ _ _ Hs) in Hrun.
    destruct (float_ltb (Fin v) (best_score l)); injection Hrun as _ <- _;
      [discriminate|exact Hb].
  - destruct (candidate_failed self num l log Hs) as (e & lg & Heq & _).
    rewrite Heq in Hrun. now injection Hrun as _ <- _.
Qed.

Lemma select_run self :
  exists r l log,
    for_each (range self) (candidate self) (init_locals Model) []
    = (r, l, log)
    /\ select self = (Ok (best_model l), log).
Proof.
  unfold SelectorBIC.select, SelectorBIC.select_stmt, try_except, bind.
  fold (range self).
  destruct (for_each (range self) _ _ _) as [[r l] log] eqn:Hrun.
  exists r, l, log. split; [reflexivity|].
  destruct r as [[]|e]; reflexivity.
Qed.

Lemma select_none_iff self f rest :
  X self = f :: rest ->
  fst (select self) = Ok None
  <-> forall n,
      hd_error (range self) = Some n ->
      ~ exists m logL,
          hmm_fit n (random_state self) (X self, lengths self) = Ok m
          /\ hmm_score m (X self, lengths self) = Ok logL.
Proof.
  intros HX.
  unfold SelectorBIC.select, SelectorBIC.select_stmt, try_except, bind.
  fold (range self). destruct (range self) as [|n nums].
  - cbn. split; [intros _ k [=]|reflexivity].
  - cbn [for_each hd_error]. unfold bind.
    destruct (scored self n) as [[m v]|] eqn:Hs.
    + rewrite (candidate_scored _ _ _ _ _ _ Hs). cbn [best_score init_locals].
      cbn [float_ltb].
      destruct (for_each nums _ _ _) as [[r l] log] eqn:Hrun.
      assert (best_model l <> None) as Hb.
      { apply (for_each_invariant _ _ _ (candidate self)
                 (fun l _ => best_model l <> None) nums) with
            (l := {| best_score := Fin v; best_model := Some m |})
            (log := [] ++ [EvFit n (X self, lengths self)]
                       ++ [EvScore m (X self, lengths self)])
            (r := r) (log' := log); [|discriminate|exact Hrun].
        intros num l0 log0 r0 l1 log1 _.
        apply candidate_keeps_model. }
      destruct r as [[]|e]; cbn; unfold read; cbn.
      * split; [intros [= H]; congruence|].
        intros H. exfalso. apply (H n eq_refl).
        apply (scored_some self f rest n HX). congruence.
      * split; [intros [= H]; congruence|].
        intros H. exfalso. apply (H n eq_refl).
        apply (scored_some self f rest n HX). congruence.
    + destruct (candidate_failed self n (init_locals Model) [] Hs)
        as (e & lg & Heq & _).
      rewrite Heq. cbn. split; [|reflexivity].
      intros _ k [= <-] Hex.
      apply (scored_some self f rest n HX) in Hex. congruence.
Qed.

(** With at least one feature row, [SelectorBIC.select] never raises, and
    it returns no model exactly when the range is empty or its first state
    count fails to fit or to score: once the first state count is fitted
    and scored a model is returned, whatever fails later. *)
Theorem bic_select_none_iff_first_fails self f rest :
  X self = f :: rest ->
  let data := (X self, lengths self) in
  exists best,
    fst (select self) = Ok best
    /\ (best = None
        <-> forall n,
            hd_error (range self) = Some n ->
            ~ exists m logL,
                hmm_fit n (random_state self) data = Ok m
                /\ hmm_score m data = Ok logL).
Proof.
  intros HX data.
  pose proof (select_none_iff self f rest HX) as Hiff.
  destruct (select_run self) as (r & l & log & _ & Hsel).
  rewrite Hsel in Hiff |- *. cbn [fst] in Hiff |- *.
  exists (best_model l). split; [reflexivity|].
  subst data. split.
  - intros Hb. apply Hiff. now rewrite Hb.
  - intros H. apply Hiff in H. now injection H.
Qed.

(** With a feature matrix that has no row, [len(self.X[0])] raises inside
    the [try]: [SelectorBIC.select] returns no model, and the only fit it
    requests is that of the first state count of the range. *)
Theorem bic_select_no_rows self :
  X self = [] ->
  fst (select self) = Ok None
  /\ forall k d,
      In (EvFit k d) (snd (select self)) ->
      hd_error (range self) = Some k /\ d = (X self, lengths self).
Proof.
  intros HX.
  assert (forall k, scored self k = None) as Hnone.
  { intros k. unfold BICSpec.scored. rewrite HX.
    destruct (hmm_fit _ _ _) as [m|]; [|reflexivity].
    now destruct (hmm_score _ _). }
  unfold SelectorBIC.select, SelectorBIC.select_stmt, try_except, bind.
  fold (range self). destruct (range self) as [|n nums].
  - cbn. split; [reflexivity|intros k d []].
  - cbn [for_each]. unfold bind.
    destruct (candidate_failed self n (init_locals Model) [] (Hnone n))
      as (e & lg & Heq & Hlog).
    rewrite Heq. cbn. split; [reflexivity|].
    intros k d Hin. apply Hlog in Hin as [[]|[-> ->]]. now split.
Qed.

Lemma seq_prefix a : forall lo len b,
  seq lo len = a ++ b ->
  a = seq lo (List.length a) /\ b = seq (lo + List.length a) (List.length b).
Proof.
  induction a as [|x a IH]; intros lo len b H; cbn in *.
  - rewrite Nat.add_0_r. split; [reflexivity|].
    subst b. now rewrite length_seq.
  - destruct len as [|len]; [discriminate|]. cbn in H.
    injection H as <- H. destruct (IH _ _ _ H) as [Ha Hb].
    split; [now rewrite <- Ha|].
    rewrite Hb at 1. f_equal. lia.
Qed.

Lemma seq_before lo len before n after rest k :
  seq lo len = (before ++ n :: after) ++ rest ->
  In k (before ++ n :: after) -> k < n -> In k before.
Proof.
  intros Hseq Hin Hlt. rewrite <- app_assoc in Hseq. cbn in Hseq.
  apply seq_prefix in Hseq as [Hb Hr].
  assert (n :: after ++ rest
          = seq (lo + List.length before) (List.length (n :: after ++ rest)))
    as Hr' by exact Hr.
  cbn in Hr'. injection Hr' as Hn Ha.
  apply in_app_or in Hin as [Hin|[Hin|Hin]]; [exact Hin|lia|].
  assert (In k (after ++ rest)) as Hin' by (apply in_or_app; now left).
  rewrite Ha in Hin'. apply in_seq in Hin'. lia.
Qed.

Lemma first_min_candidate self done num l log r l' log' :
  Ties.first_min (scored self) done (best_score l, best_model l)
  /\ (forall k d, In (EvFit k d) log -> In k done) ->
  candidate self num l log = (r, l', log') ->
  Ties.first_min (scored self) (done ++ [num]) (best_score l', best_model l')
  /\ (forall k d, In (EvFit k d) log' -> In k (done ++ [num])).
Proof.
  intros [Hmin Hlog] Hrun.
  destruct (scored self num) as [[m v]|] eqn:Hs.
  - rewrite (candidate_scored _ _ _ _ _ _ Hs) in Hrun.
    assert (forall k d, In (EvFit k d) log' -> In k (done ++ [num])) as Hlog'.
    { destruct (float_ltb (Fin v) (best_score l)); injection Hrun as _ _ <-;
        intros k d Hin; apply in_fit_events in Hin as [Hin|[-> _]];
        apply in_or_app; eauto; right; now left. }
    split; [|exact Hlog'].
    destruct Hmin as [[Hb Hnone]|
                      (before & n & after & m0 & v0 & Hd & Hq & Hb & Hle & Hlt)].
    + injection Hb as Hbs Hbm. rewrite Hbs in Hrun. cbn [float_ltb] in Hrun.
      injection Hrun as _ <- _. cbn. right.
      exists done, num, [], m, v. repeat split; auto.
      * intros k m' v' Hin Hq. apply in_app_or in Hin as [Hin|[<-|[]]].
        -- rewrite (Hnone k Hin) in Hq. discriminate.
        -- rewrite Hs in Hq. injection Hq as _ <-. apply Qle_refl.
      * intros k m' v' Hin Hq. rewrite (Hnone k Hin) in Hq. discriminate.
    + injection Hb as Hbs Hbm. rewrite Hbs in Hrun. cbn [float_ltb] in Hrun.
      destruct (Qltb v v0) eqn:Hcmp; injection Hrun as _ <- _.
      * apply Qltb_lt in Hcmp. cbn. right.
        exists done, num, [], m, v. repeat split; auto.
        -- intros k m' v' Hin Hq'. apply in_app_or in Hin as [Hin|[<-|[]]].
           ++ apply Qlt_le_weak. eapply Qlt_le_trans; [exact Hcmp|].
              now apply (Hle k m' v').
           ++ rewrite Hs in Hq'. injection Hq' as _ <-. apply Qle_refl.
        -- intros k m' v' Hin Hq'. eapply Qlt_le_trans; [exact Hcmp|].
           now apply (Hle k m' v').
      * apply Qltb_ge in Hcmp. rewrite Hbs, Hbm. right.
        exists before, n, (after ++ [num]), m0, v0. repeat split; auto.
        -- rewrite Hd, <- app_assoc. reflexivity.
        -- intros k m' v' Hin Hq'. apply in_app_or in Hin as [Hin|[<-|[]]].
           ++ now apply (Hle k m' v').
           ++ rewrite Hs in Hq'. now injection Hq' as _ <-.
  - destruct (candidate_failed self num l log Hs) as (e & lg & Heq & Hlg).
    rewrite Heq in Hrun. injection Hrun as _ <- <-. split.
    + destruct Hmin as [[Hb Hnone]|
                        (before & n & after & m0 & v0 & Hd & Hq & Hb & Hle & Hlt)].
      * left. split; [exact Hb|].
        intros k Hin. apply in_app_or in Hin as [Hin|[<-|[]]]; auto.
      * right. exists before, n, (after ++ [num]), m0, v0. repeat split; auto.
        -- rewrite Hd, <- app_assoc. reflexivity.
        -- intros k m' v' Hin Hq'. apply in_app_or in Hin as [Hin|[<-|[]]].
           ++ now apply (Hle k m' v').
           ++ congruence.
    + intros k d Hin. apply Hlg in Hin as [Hin|[-> _]]; apply in_or_app;
        eauto. right. now left.
Qed.

(** Ties in [SelectorBIC.select] go to the smallest state count: the model
    returned is that of a state count whose BIC is at most the BIC of every
    state count fitted and scored, and strictly below the BIC of every
    smaller one. *)
Theorem bic_select_first_minimum self f rest best :
  X self = f :: rest ->
  fst (select self) = Ok (Some best) ->
  let data := (X self, lengths self) in
  let BIC (n : nat) (logL : Q) : Q :=
    ((-2 # 1) * logL
     + inject_Z (Z.of_nat n * (Z.of_nat n - 1)
                 + 2 * Z.of_nat (List.length f) * Z.of_nat n)
       * np_log (List.length (X self)))%Q in
  exists n logL,
    In n (range self)
    /\ hmm_fit n (random_state self) data = Ok best
    /\ hmm_score best data = Ok logL
    /\ forall k m logLk,
        In (EvFit k data) (snd (select self)) ->
        hmm_fit k (random_state self) data = Ok m ->
        hmm_score m data = Ok logLk ->
        (BIC n logL <= BIC k logLk)%Q
        /\ (k < n -> (BIC n logL < BIC k logLk)%Q).
Proof.
  intros HX Hsel data BIC.
  destruct (select_run self) as (r & l & log & Hrun & Hselect).
  rewrite Hselect in Hsel |- *. cbn [fst snd] in Hsel |- *.
  injection Hsel as Hbest.
  destruct (for_each_visited _ _ _ (candidate self)
              (fun done l log =>
                 Ties.first_min (scored self) done (best_score l, best_model l)
                 /\ (forall k d, In (EvFit k d) log -> In k done))
              (range self)) with (l := init_locals Model)
                                 (log := @nil (event Model)) (r := r)
                                 (l' := l) (log' := log)
    as (done & rest' & Hrange & [Hmin Hlog] & _).
  - intros done0 num rest0 l0 log0 r0 l1 log1 _.
    apply first_min_candidate.
  - split; [left; split; [reflexivity|intros k []]|intros k d []].
  - exact Hrun.
  - destruct Hmin as [[Hb _]|
                      (before & n & after & m & v & Hd & Hq & Hb & Hle & Hlt)].
    { injection Hb as _ Hb. congruence. }
    injection Hb as _ Hbm. rewrite Hbest in Hbm. injection Hbm as ->.
    assert (forall k mk lk,
               hmm_fit k (random_state self) data = Ok mk ->
               hmm_score mk data = Ok lk ->
               scored self k = Some (mk, BIC k lk)) as Hsc.
    { intros k mk lk Hf Hs. unfold BICSpec.scored. fold data.
      now rewrite Hf, Hs, HX. }
    pose proof Hq as Hq'. unfold BICSpec.scored in Hq'. fold data in Hq'.
    destruct (hmm_fit n _ data) as [m1|] eqn:Hf; [|discriminate].
    destruct (hmm_score m1 data) as [l1|] eqn:Hs; [|discriminate].
    rewrite HX in Hq'. injection Hq' as -> <-.
    exists n, l1. split; [|split; [exact Hf|split; [exact Hs|]]].
    + rewrite Hrange, Hd. apply in_or_app. left. apply in_or_app.
      right. now left.
    + intros k mk lk Hin Hfk Hsk.
      pose proof (Hlog k data Hin) as Hk.
      pose proof (Hsc k mk lk Hfk Hsk) as Hqk. split.
      * exact (Hle k mk _ Hk Hqk).
      * intros Hlt'. apply (Hlt k mk _); [|exact Hqk].
        unfold range, py_range in Hrange. rewrite Hd in Hrange, Hk.
        exact (seq_before _ _ before n after rest' k Hrange Hk Hlt').
Qed.
End BICFacts.

(** ** SelectorDIC *)

Section DICFacts.
Import ModelSelector SelectorDIC.
Variable Model : Type.
Variable hmm_fit : nat -> nat -> Features -> result Model.
Variable hmm_score : Model -> Features -> result Q.

Local Abbreviation stmt := (Py (event Model) (locals Model)).
Local Abbreviation fit_word := (fit_word hmm_fit hmm_score).
Local Abbreviation contrast := (@contrast Model).
Local Abbreviation word_body := (word_body hmm_fit hmm_score).
Local Abbreviation candidate := (candidate hmm_fit hmm_score).
Local Abbreviation select := (select hmm_fit hmm_score).

Lemma comprehension_subscript (d : dict Q) (l : locals Model)
  (log : list (event Model)) :
  forall ws,
    (forall w, In w ws -> get d w <> None) ->
    exists vs,
      comprehension ws (subscript d) l log = (Ok vs, l, log).
Proof.
  induction ws as [|w ws IH]; intros Hall; cbn.
  - now exists [].
  - destruct (IH (fun x Hx => Hall x (or_intror Hx))) as (vs & Hvs).
    unfold bind, subscript at 1.
    destruct (get d w) as [v|] eqn:Hg; [|exfalso; apply (Hall w); auto; now left].
    cbn. rewrite Hvs. now exists (v :: vs).
Qed.

Lemma contrast_fewer_than_two self l log :
  List.length (words l) <= 1 ->
  contrast self l log = (Ok tt, l, log).
Proof.
  intros Hlen. unfold SelectorDIC.contrast, try_except, bind, read, when.
  destruct (Nat.ltb_spec 1 (List.length (words l))); [lia|reflexivity].
Qed.

Lemma contrast_target_missing self l log m :
  1 < List.length (words l) ->
  (forall w, In w (words l) -> get (logP1 l) w <> None) ->
  get (logP1 l) (this_word self) = None ->
  model l = Some m ->
  contrast self l log = (Ok tt, set_best_model (Some m) l, log).
Proof.
  intros Hlen Hall Hmiss Hm.
  unfold SelectorDIC.contrast, try_except, bind, read, when.
  destruct (Nat.ltb_spec 1 (List.length (words l))); [|lia].
  destruct (comprehension_subscript (logP1 l) l log
              (filter (fun w => negb (String.eqb w (this_word self))) (words l)))
    as (vs & Hvs).
  { intros w Hin. apply filter_In in Hin as [Hin _]. now apply Hall. }
  rewrite Hvs. unfold subscript. rewrite Hmiss. unfold raise.
  cbn [exn_eqb]. unfold accept_model, bind, read_bound, assign.
  rewrite Hm. reflexivity.
Qed.

Lemma fit_word_cases self num train data l log r l' log' :
  fit_word self num train data l log = (r, l', log') ->
  best_score l' = best_score l /\ best_model l' = best_model l
  /\ match hmm_fit num (random_state self) data with
     | Ok m =>
         model l' = Some m
         /\ match hmm_score m data with
            | Ok s =>
                r = Ok tt /\ words l' = words l ++ [train]
                /\ logP1 l' = Dict.set (logP1 l) train s
            | Raise e =>
                words l' = words l /\ logP1 l' = logP1 l
                /\ r = if exn_eqb e ValueError then Ok tt else Raise e
            end
     | Raise e =>
         l' = l /\ r = if exn_eqb e ValueError then Ok tt else Raise e
     end.
Proof.
  unfold SelectorDIC.fit_word, try_except, call_fit, call_score, bind, emit,
    lift, assign, ret, raise.
  destruct (hmm_fit _ _ _) as [m|e1].
  - destruct (hmm_score _ _) as [s|e2].
    + intros [= <- <- _]. cbn. repeat split.
    + destruct (exn_eqb e2 ValueError); intros [= <- <- _]; cbn;
        repeat split.
  - destruct (exn_eqb e1 ValueError); intros [= <- <- _]; repeat split.
Qed.

Lemma comprehension_pure (d : dict Q) (l : locals Model)
  (log : list (event Model)) : forall ws,
  exists r, comprehension ws (subscript d) l log = (r, l, log).
Proof.
  induction ws as [|w ws [r IH]]; cbn.
  - now eexists.
  - unfold bind, subscript at 1. destruct (get d w) as [v|]; cbn.
    + rewrite IH. destruct r; now eexists.
    + now eexists.
Qed.

(** Whatever [contrast] does, it only touches the best score and the best
    model, and a new best model is the most recently fitted one, accepted
    with at least two words fitted and scored. *)
Lemma contrast_effect self l log r l' log' :
  contrast self l log = (r, l', log') ->
  log' = log /\ words l' = words l /\ logP1 l' = logP1 l
  /\ model l' = model l
  /\ (best_model l' = best_model l
      \/ (2 <= List.length (words l)
          /\ exists m, model l = Some m /\ best_model l' = Some m)).
Proof.
  unfold SelectorDIC.contrast, try_except, bind, read, when.
  destruct (Nat.ltb_spec 1 (List.length (words l))) as [Hlen|Hlen].
  - destruct (comprehension_pure (logP1 l) l log
                (filter (fun w => negb (String.eqb w (this_word self)))
                        (words l))) as (rc & ->).
    assert (forall l0 : locals Model,
               words l0 = words l -> logP1 l0 = logP1 l ->
               model l0 = model l ->
               forall r0 l1 log1,
                 accept_model (Model:=Model) l0 log = (r0, l1, log1) ->
                 log1 = log /\ words l1 = words l /\ logP1 l1 = logP1 l
                 /\ model l1 = model l
                 /\ (best_model l1 = best_model l0
                     \/ (2 <= List.length (words l)
                         /\ exists m, model l = Some m
                                       /\ best_model l1 = Some m))) as Hacc.
    { intros l0 Hw Hp Hm r0 l1 log1.
      unfold accept_model, bind, read_bound, assign. rewrite Hm.
      destruct (model l) as [m|]; intros [= _ <- <-]; cbn;
        repeat split; auto.
      right. split; [lia|]. now exists m. }
    destruct rc as [others|e].
    + unfold subscript. destruct (get (logP1 l) (this_word self)) as [own|].
      * unfold ret, lift.
        destruct (py_div 1 _) as [inv|e].
        -- destruct (float_gtb _ (best_score l)).
           ++ unfold assign at 1.
              destruct (accept_model _ log) as [[r0 l1] log1] eqn:Ha.
              apply Hacc in Ha; [|reflexivity|reflexivity|reflexivity].
              destruct Ha as (-> & Hw & Hp & Hm & Hb).
              cbn [best_model set_best_score] in Hb.
              destruct r0 as [[]|e0].
              ** intros [= _ <- <-]. repeat split; auto.
              ** destruct (exn_eqb e0 KeyError).
                 --- intros Ha'. apply Hacc in Ha'; auto.
                     destruct Ha' as (-> & Hw' & Hp' & Hm' & Hb').
                     repeat split; auto.
                     destruct Hb' as [Hb'|Hb']; [|now right].
                     destruct Hb as [Hb|Hb]; [left; congruence|].
                     right. destruct Hb as (H2 & m & Hm0 & Hbm).
                     split; [exact H2|]. exists m. split; [exact Hm0|].
                     congruence.
                 --- unfold raise. intros [= _ <- <-]. repeat split; auto.
           ++ intros [= _ <- <-]. repeat split; auto.
        -- destruct (exn_eqb e KeyError).
           ++ intros Ha. apply Hacc in Ha; auto.
           ++ unfold raise. intros [= _ <- <-]. repeat split; auto.
      * unfold raise. cbn [exn_eqb]. intros Ha. apply Hacc in Ha; auto.
    + destruct (exn_eqb e KeyError).
      * intros Ha. apply Hacc in Ha; auto.
      * unfold raise. intros [= _ <- <-]. repeat split; auto.
  - unfold ret. intros [= _ <- <-]. repeat split; auto.
Qed.

Local Abbreviation fit_of := (DICSpec.fit_of hmm_fit).

Lemma word_body_provenance self num done w rest bm0 l log l' log' :
  keys (ModelSelector.words self) = done ++ w :: rest ->
  (List.length (words l) <= List.length done
   /\ (2 <= List.length (words l) ->
       exists m, model l = Some m
                 /\ fit_of self num (tl (keys (ModelSelector.words self))) m)
   /\ (best_model l = bm0
       \/ exists m, best_model l = Some m
                    /\ fit_of self num
                         (tl (keys (ModelSelector.words self))) m)) ->
  word_body self num w l log = (Ok tt, l', log') ->
  List.length (words l') <= List.length (done ++ [w])
  /\ (2 <= List.length (words l') ->
      exists m, model l' = Some m
                /\ fit_of self num (tl (keys (ModelSelector.words self))) m)
  /\ (best_model l' = bm0
      \/ exists m, best_model l' = Some m
                   /\ fit_of self num
                        (tl (keys (ModelSelector.words self))) m).
Proof.
  intros Hks (Hlen & Hmodel & Hbest).
  unfold SelectorDIC.word_body, bind at 1, subscript.
  destruct (get (hwords self) w) as [data|] eqn:Hdata; [|discriminate].
  cbn [ret]. unfold bind at 1.
  destruct (fit_word self num w data l log) as [[r1 l1] log1] eqn:Hfit.
  apply fit_word_cases in Hfit as (_ & Hbm1 & Hcases).
  destruct r1 as [[]|e]; [|discriminate].
  intros Hc. apply contrast_effect in Hc as (_ & Hw' & _ & Hm' & Hb').
  assert (List.length (words l1) <= List.length (done ++ [w])
          /\ (2 <= List.length (words l1) ->
              exists m, model l1 = Some m
                        /\ fit_of self num
                             (tl (keys (ModelSelector.words self))) m))
    as [Hlen1 Hmodel1].
  { rewrite length_app. cbn [List.length].
    assert (2 <= List.length (words l) + 1 -> In w
              (tl (keys (ModelSelector.words self)))) as Htl.
    { intros H2. rewrite Hks. destruct done as [|d0 done'].
      - cbn in Hlen. lia.
      - cbn. apply in_or_app. right. now left. }
    destruct (hmm_fit num (random_state self) data) as [m|e] eqn:Hf.
    - destruct Hcases as (Hm1 & Hcases).
      destruct (hmm_score m data) as [s|e].
      + destruct Hcases as (_ & Hw1 & _). rewrite Hw1, length_app.
        cbn [List.length]. split; [lia|].
        intros H2. exists m. split; [exact Hm1|].
        exists w, data. split; [apply Htl; lia|]. now split.
      + destruct Hcases as (Hw1 & _ & _). rewrite Hw1. split; [lia|].
        intros H2. exists m. split; [exact Hm1|].
        exists w, data. split; [apply Htl; lia|]. now split.
    - destruct Hcases as (-> & _). split; [lia|exact Hmodel]. }
  rewrite Hw', Hm'. split; [exact Hlen1|]. split; [exact Hmodel1|].
  destruct Hb' as [Hb'|(H2 & m & Hm1 & Hb')].
  - rewrite Hb', Hbm1. exact Hbest.
  - right. exists m. split; [exact Hb'|].
    destruct (Hmodel1 H2) as (m' & Hm1' & Hfit').
    rewrite Hm1 in Hm1'. now injection Hm1' as <-.
Qed.

Lemma candidate_provenance self num l log l' log' :
  candidate self num l log = (Ok tt, l', log') ->
  best_model l' = best_model l
  \/ exists m, best_model l' = Some m
               /\ fit_of self num (tl (keys (ModelSelector.words self))) m.
Proof.
  unfold SelectorDIC.candidate, bind at 1, bind at 1, assign.
  intros Hrun.
  apply (for_each_returned _ _ _ (word_body self num)
           (fun done l0 _ =>
              List.length (words l0) <= List.length done
              /\ (2 <= List.length (words l0) ->
                  exists m, model l0 = Some m
                            /\ fit_of self num
                                 (tl (keys (ModelSelector.words self))) m)
              /\ (best_model l0 = best_model l
                  \/ exists m, best_model l0 = Some m
                               /\ fit_of self num
                                    (tl (keys (ModelSelector.words self)))
                                    m))
           (keys (ModelSelector.words self)))
    with (l := set_words [] (set_logP1 Dict.empty l)) (log := log)
         (log' := log'); [| |exact Hrun].
  - intros done w rest l0 log0 l1 log1 Hks Hinv Hbody.
    exact (word_body_provenance self num done w rest (best_model l)
             l0 log0 l1 log1 Hks Hinv Hbody).
  - cbn. split; [lia|]. split; [lia|now left].
Qed.

(** A model that [SelectorDIC.select] returns is the fit, at a state count
    of the range, of the data of a vocabulary word that is not the first
    in iteration order. *)
Theorem dic_select_returns_later_word_fit self m :
  fst (select self) = Ok (Some m) ->
  exists num,
    In num (range self)
    /\ fit_of self num (tl (keys (ModelSelector.words self))) m.
Proof.
  unfold SelectorDIC.select, SelectorDIC.select_stmt, bind.
  fold (range self).
  destruct (for_each (range self) _ _ _) as [[r l] log] eqn:Hrun.
  destruct r as [[]|e]; [|discriminate].
  unfold read. cbn [fst]. intros [= Hbest].
  assert (best_model l = None
          \/ exists m0 num,
              best_model l = Some m0 /\ In num (range self)
              /\ fit_of self num
                   (tl (keys (ModelSelector.words self))) m0) as Hinv.
  { apply (for_each_returned _ _ _ (candidate self)
             (fun done l0 _ =>
                best_model l0 = None
                \/ exists m0 num,
                    best_model l0 = Some m0 /\ In num done
                    /\ fit_of self num
                         (tl (keys (ModelSelector.words self))) m0)
             (range self))
      with (l := init_locals Model) (log := @nil (event Model))
           (log' := log); [| |exact Hrun].
    - intros done num rest l0 log0 l1 log1 _ Hinv Hbody.
      apply candidate_provenance in Hbody as [Hb|(m0 & Hb & Hfit)].
      + rewrite Hb. destruct Hinv as [Hn|(m0 & n0 & H1 & H2 & H3)];
          [now left|].
        right. exists m0, n0. split; [exact H1|].
        split; [apply in_or_app; now left|exact H3].
      + right. exists m0, num. split; [exact Hb|].
        split; [apply in_or_app; right; now left|exact Hfit].
    - now left. }
  destruct Hinv as [Hn|(m0 & num & H1 & H2 & H3)]; [congruence|].
  rewrite Hbest in H1. injection H1 as <-. now exists num.
Qed.

Lemma exn_eqb_eq e e' : exn_eqb e e' = true <-> e = e'.
Proof.
  destruct e, e'; cbn; split; intros H; try reflexivity; discriminate.
Qed.

Lemma py_div_one_less (a : Q) (n : nat) :
  2 <= n -> exists q, py_div a (inject_Z (Z.of_nat n - 1)) = Ok q.
Proof.
  intros Hn. unfold py_div.
  destruct (Qeq_bool _ 0) eqn:E; [|now eexists].
  apply Qeq_bool_iff in E. unfold Qeq, inject_Z in E. cbn in E. lia.
Qed.

(** With every fitted word recorded in [logP1] and a model bound as soon
    as a word is fitted, [contrast] returns. *)
Lemma contrast_returns self l log :
  (forall w, In w (words l) -> get (logP1 l) w <> None) ->
  (words l <> [] -> model l <> None) ->
  exists l', contrast self l log = (Ok tt, l', log).
Proof.
  intros HA HB.
  unfold SelectorDIC.contrast, try_except, bind, read, when.
  destruct (Nat.ltb_spec 1 (List.length (words l))) as [Hlen|Hlen];
    [|now eexists].
  destruct (comprehension_subscript (logP1 l) l log
              (filter (fun w => negb (String.eqb w (this_word self)))
                      (words l))) as (vs & ->).
  { intros w Hin. apply filter_In in Hin as [Hin _]. now apply HA. }
  destruct (model l) as [m|] eqn:Hm.
  2:{ exfalso. apply HB; [|reflexivity]. intros Hw. rewrite Hw in Hlen.
      cbn in Hlen. lia. }
  unfold subscript. destruct (get (logP1 l) (this_word self)) as [own|].
  - unfold ret, lift.
    destruct (py_div_one_less 1 (List.length (words l)) Hlen) as (q & ->).
    destruct (float_gtb _ (best_score l)); [|now eexists].
    unfold assign at 1, accept_model, bind, read_bound, assign.
    cbn [model set_best_score]. rewrite Hm. now eexists.
  - unfold raise. cbn [exn_eqb].
    unfold accept_model, bind, read_bound, assign. rewrite Hm. now eexists.
Qed.

(** [SelectorDIC.select] returns, with or without a model, when every
    vocabulary word has an entry in [hwords] and the only exception that
    fitting and scoring raise is [ValueError]. *)
Theorem dic_select_returns self :
  (forall w, In w (keys (ModelSelector.words self)) ->
             get (hwords self) w <> None) ->
  (forall n d e, hmm_fit n (random_state self) d = Raise e ->
                 e = ValueError) ->
  (forall m d e, hmm_score m d = Raise e -> e = ValueError) ->
  exists best log, select self = (Ok best, log).
Proof.
  intros Hdata Hfit Hscore.
  unfold SelectorDIC.select, SelectorDIC.select_stmt, bind.
  set (inv := fun l : locals Model =>
                (forall w, In w (words l) -> get (logP1 l) w <> None)
                /\ (words l <> [] -> model l <> None)).
  destruct (for_each_total _ _ _ (candidate self)
              (fun _ l _ => words l <> [] -> model l <> None)
              (py_range (min_n_components self) (max_n_components self)))
    with (l := init_locals Model) (log := @nil (event Model))
    as (l & log & Hrun & _).
  - intros _ num _ l log _ HB.
    unfold SelectorDIC.candidate, bind at 1, bind at 1, assign.
    destruct (for_each_total _ _ _ (word_body self num)
                (fun _ l0 _ => inv l0 /\ (model l <> None -> model l0 <> None))
                (keys (ModelSelector.words self)))
      with (l := set_words [] (set_logP1 Dict.empty l)) (log := log)
      as (l' & log' & Hrun & [[_ HB'] _]).
    + intros done w rest l0 log0 Hks [[HA0 HB0] Hkeep].
      unfold SelectorDIC.word_body, bind at 1, subscript.
      destruct (get (hwords self) w) as [data|] eqn:Hd.
      2:{ exfalso. apply (Hdata w); [|exact Hd].
          rewrite Hks. apply in_or_app. right. now left. }
      cbn [ret]. unfold bind at 1.
      destruct (fit_word self num w data l0 log0) as [[r1 l1] log1] eqn:Hf.
      apply fit_word_cases in Hf as (_ & _ & Hcases).
      assert (r1 = Ok tt /\ inv l1 /\ (model l <> None -> model l1 <> None))
        as (-> & [HA1 HB1] & Hkeep1).
      { destruct (hmm_fit num (random_state self) data) as [m|e] eqn:Hfe.
        - destruct Hcases as (Hm1 & Hcases).
          destruct (hmm_score m data) as [s|e] eqn:Hse.
          + destruct Hcases as (-> & Hw1 & Hp1). split; [reflexivity|].
            split; [split|]; try (intros; rewrite Hm1; discriminate).
            intros w' Hin. rewrite Hw1 in Hin. rewrite Hp1.
            destruct (string_dec w w') as [->|Hne].
            * rewrite dict_get_set. discriminate.
            * rewrite dict_get_set_other by exact Hne.
              apply in_app_or in Hin as [Hin|[Hin|[]]];
                [now apply HA0|congruence].
          + destruct Hcases as (Hw1 & Hp1 & ->).
            rewrite (Hscore m data e Hse). cbn. split; [reflexivity|].
            split; [split|]; try (intros; rewrite Hm1; discriminate).
            intros w' Hin. rewrite Hw1 in Hin. rewrite Hp1. now apply HA0.
        - destruct Hcases as (-> & ->). rewrite (Hfit num data e Hfe). cbn.
          split; [reflexivity|]. split; [split|]; assumption. }
      destruct (contrast_returns self l1 log1 HA1 HB1) as (l2 & Hc).
      exists l2, log1. split; [exact Hc|].
      apply contrast_effect in Hc as (_ & Hw2 & Hp2 & Hm2 & _).
      unfold inv. rewrite Hw2, Hp2, Hm2. repeat split; assumption.
    + unfold inv. cbn. repeat split; auto; try contradiction.
    + exists l', log'. split; [exact Hrun|exact HB']. 
  - cbn. contradiction.
  - rewrite Hrun. unfold read. now eexists _, _.
Qed.

(** What the first word of the vocabulary can make [SelectorDIC.select]
    raise at the first state count: [KeyError] when the word has no entry
    in [hwords] (before any fit), and any exception other than
    [ValueError] that its fit or its score raises. *)
Theorem dic_select_raises self n0 nums w0 ws :
  range self = n0 :: nums ->
  keys (ModelSelector.words self) = w0 :: ws ->
  (get (hwords self) w0 = None -> select self = (Raise KeyError, []))
  /\ (forall data e,
         get (hwords self) w0 = Some data ->
         hmm_fit n0 (random_state self) data = Raise e ->
         e <> ValueError ->
         select self = (Raise e, [EvFit n0 data]))
  /\ (forall data m e,
         get (hwords self) w0 = Some data ->
         hmm_fit n0 (random_state self) data = Ok m ->
         hmm_score m data = Raise e ->
         e <> ValueError ->
         select self = (Raise e, [EvFit n0 data; EvScore m data])).
Proof.
  intros Hrange Hkeys.
  assert (forall e, e <> ValueError -> exn_eqb e ValueError = false) as Hneq.
  { intros e He. destruct (exn_eqb e ValueError) eqn:E; [|reflexivity].
    apply exn_eqb_eq in E. contradiction. }
  unfold SelectorDIC.select, SelectorDIC.select_stmt.
  fold (range self). rewrite Hrange. cbn [for_each].
  unfold SelectorDIC.candidate. rewrite Hkeys. cbn [for_each].
  unfold SelectorDIC.word_body, subscript.
  split; [|split].
  - intros ->. reflexivity.
  - intros data e -> Hf He.
    unfold SelectorDIC.fit_word, try_except, call_fit, bind, emit, lift,
      assign, ret.
    cbv beta iota. rewrite Hf, (Hneq e He). reflexivity.
  - intros data m e -> Hf Hs He.
    unfold SelectorDIC.fit_word, try_except, call_fit, call_score, bind,
      emit, lift, assign, ret.
    cbv beta iota. rewrite Hf. cbv beta iota. rewrite Hs, (Hneq e He).
    reflexivity.
Qed.

Local Abbreviation fit_at := (DICSpec.fit_at hmm_fit).
Local Abbreviation fits_and_scores :=
  (DICSpec.fits_and_scores hmm_fit hmm_score).
Local Abbreviation scored_words := (DICSpec.scored_words hmm_fit hmm_score).
Local Abbreviation last_fit := (DICSpec.last_fit hmm_fit).

Lemma last_fit_snoc self num ws w :
  last_fit self num (ws ++ [w])
  = match fit_at self num w with
    | Some m => Some m
    | None => last_fit self num ws
    end.
Proof.
  unfold DICSpec.last_fit. now rewrite fold_left_app.
Qed.

Lemma filter_snoc (A : Type) (f : A -> bool) (xs : list A) (x : A) :
  filter f (xs ++ [x]) = filter f xs ++ (if f x then [x] else []).
Proof.
  rewrite filter_app. cbn. now destruct (f x).
Qed.

Lemma pivot_same (A : Type) (x y : A) r s : forall a b,
  a ++ x :: r = b ++ y :: s -> List.length a = List.length b ->
  a = b /\ x = y.
Proof.
  induction a as [|a0 a IH]; intros [|b0 b]; cbn; try discriminate.
  - intros [= -> _] _. now split.
  - intros [= -> H] [= Hlen]. destruct (IH b H Hlen) as [-> ->]. now split.
Qed.

Lemma pivot_later (A : Type) (x y : A) r s : forall a b,
  a ++ x :: r = b ++ y :: s -> List.length b < List.length a -> In x s.
Proof.
  induction a as [|a0 a IH]; intros [|b0 b]; cbn; try lia.
  - intros [= _ <-] _. apply in_or_app. right. now left.
  - intros [= _ H] Hlen. apply (IH b H). lia.
Qed.

(** What [contrast] does once every fitted word is recorded in [logP1]
    and a model is bound: nothing with fewer than two words fitted and
    scored; the most recently fitted model accepted with no comparison
    when the target word is not among them; a comparison otherwise. *)
Lemma contrast_cases self l log :
  (forall w, get (logP1 l) w <> None <-> In w (words l)) ->
  (words l <> [] -> model l <> None) ->
  exists l',
    contrast self l log = (Ok tt, l', log)
    /\ words l' = words l /\ logP1 l' = logP1 l /\ model l' = model l
    /\ (List.length (words l) <= 1 -> l' = l)
    /\ (2 <= List.length (words l) ->
        ~ In (this_word self) (words l) ->
        best_model l' = model l /\ best_score l' = best_score l)
    /\ (2 <= List.length (words l) ->
        In (this_word self) (words l) ->
        (best_model l' = model l /\ best_score l' <> NegInf)
        \/ (best_model l' = best_model l /\ best_score l' = best_score l
            /\ best_score l <> NegInf)).
Proof.
  intros HA HB.
  destruct (Nat.le_gt_cases (List.length (words l)) 1) as [Hlen|Hlen].
  { exists l. rewrite contrast_fewer_than_two by exact Hlen.
    repeat split; auto; intros; lia. }
  destruct (model l) as [m|] eqn:Hm.
  2:{ exfalso. apply HB; [|reflexivity]. intros Hw. rewrite Hw in Hlen.
      cbn in Hlen. lia. }
  destruct (get (logP1 l) (this_word self)) as [own|] eqn:Hown.
  - assert (In (this_word self) (words l)) as Hin
        by (apply HA; congruence).
    unfold SelectorDIC.contrast, try_except, bind, read, when.
    destruct (Nat.ltb_spec 1 (List.length (words l))); [|lia].
    destruct (comprehension_subscript (logP1 l) l log
                (filter (fun w => negb (String.eqb w (this_word self)))
                        (words l))) as (vs & ->).
    { intros w Hw. apply filter_In in Hw as [Hw _]. now apply HA. }
    unfold subscript. rewrite Hown. unfold ret, lift.
    destruct (py_div_one_less 1 (List.length (words l)) Hlen) as (q & ->).
    destruct (float_gtb _ (best_score l)) eqn:Hgt.
    + unfold assign at 1, accept_model, bind, read_bound, assign.
      cbn [model set_best_score]. rewrite Hm.
      eexists. split; [reflexivity|]. cbn.
      repeat split; auto; try (intros; lia); try contradiction.
      intros _ _. left. split; [reflexivity|discriminate].
    + exists l. repeat split; auto; try (intros; lia); try contradiction.
      intros _ _. right. repeat split.
      intros Hb. rewrite Hb in Hgt. discriminate.
  - assert (~ In (this_word self) (words l)) as Hnin.
    { intros Hin. apply HA in Hin. contradiction. }
    rewrite (contrast_target_missing self l log m Hlen
               (fun w Hw => proj2 (HA w) Hw) Hown Hm).
    eexists. split; [reflexivity|]. cbn.
    repeat split; auto; try (intros; lia); try contradiction.
Qed.

(** The state of one round of [SelectorDIC.select], after the words
    [done] have been tried with [num] states; [bm0] is the best model at
    the start of the round. *)
Local Abbreviation round_inv :=
  (fun (self : t) (num : nat) (bm0 : option Model) (done : list string)
       (l : locals Model) =>
     words l = filter (fits_and_scores self num) done
     /\ (forall w, get (logP1 l) w <> None <-> In w (words l))
     /\ (words l <> [] ->
         model l <> None /\ model l = last_fit self num done)
     /\ (best_score l <> NegInf -> best_model l <> None)
     /\ (bm0 <> None -> best_model l <> None)
     /\ (List.length (words l) <= 1 -> best_model l = bm0)
     /\ (2 <= List.length (words l) -> best_model l <> None)
     /\ (2 <= List.length (words l) ->
         ~ In (this_word self) (scored_words self num) ->
         best_model l = model l)).

Lemma word_body_round self num bm0 done w rest l log :
  (forall w, In w (keys (ModelSelector.words self)) ->
             get (hwords self) w <> None) ->
  (forall n d e, hmm_fit n (random_state self) d = Raise e ->
                 e = ValueError) ->
  (forall m d e, hmm_score m d = Raise e -> e = ValueError) ->
  keys (ModelSelector.words self) = done ++ w :: rest ->
  round_inv self num bm0 done l ->
  exists l' log',
    word_body self num w l log = (Ok tt, l', log')
    /\ round_inv self num bm0 (done ++ [w]) l'.
Proof.
  intros Hdata Hfit Hscore Hks (Hw & HA & HB & HK & Hkeep & Hsmall & Hbig & Hfb).
  unfold SelectorDIC.word_body, bind at 1, subscript.
  destruct (get (hwords self) w) as [data|] eqn:Hd.
  2:{ exfalso. apply (Hdata w); [|exact Hd].
      rewrite Hks. apply in_or_app. right. now left. }
  cbn [ret]. unfold bind at 1.
  destruct (fit_word self num w data l log) as [[r1 l1] log1] eqn:Hf.
  apply fit_word_cases in Hf as (Hbs1 & Hbm1 & Hcases).
  assert (r1 = Ok tt
          /\ words l1 = filter (fits_and_scores self num) (done ++ [w])
          /\ (forall w', get (logP1 l1) w' <> None <-> In w' (words l1))
          /\ (words l1 <> [] ->
              model l1 <> None
              /\ model l1 = last_fit self num (done ++ [w]))
          /\ List.length (words l) <= List.length (words l1))
    as (-> & Hw1 & HA1 & HB1 & Hgrow).
  { rewrite filter_snoc, last_fit_snoc.
    unfold DICSpec.fits_and_scores at 2, DICSpec.fit_at. rewrite Hd.
    destruct (hmm_fit num (random_state self) data) as [m|e] eqn:Hfe.
    - destruct Hcases as (Hm1 & Hcases).
      destruct (hmm_score m data) as [s|e] eqn:Hse.
      + destruct Hcases as (-> & Hw1 & Hp1). split; [reflexivity|].
        split; [now rewrite Hw1, Hw|].
        split; [|split].
        * intros w'. rewrite Hw1, Hp1.
          destruct (string_dec w w') as [->|Hne].
          -- rewrite dict_get_set. split; [intros _|discriminate].
             apply in_or_app. right. now left.
          -- rewrite dict_get_set_other by exact Hne. rewrite HA.
             split; [intros Hin; apply in_or_app; now left|].
             intros Hin. apply in_app_or in Hin as [Hin|[Hin|[]]];
               [exact Hin|congruence].
        * intros _. rewrite Hm1. split; [discriminate|reflexivity].
        * rewrite Hw1, length_app. lia.
      + destruct Hcases as (Hw1 & Hp1 & ->).
        rewrite (Hscore m data e Hse). cbn [exn_eqb].
        split; [reflexivity|].
        split; [now rewrite Hw1, Hw, app_nil_r|].
        split; [|split].
        * intros w'. rewrite Hw1, Hp1. apply HA.
        * intros _. rewrite Hm1. split; [discriminate|reflexivity].
        * rewrite Hw1. lia.
    - destruct Hcases as (-> & ->). rewrite (Hfit num data e Hfe).
      cbn [exn_eqb]. split; [reflexivity|].
      split; [now rewrite Hw, app_nil_r|].
      split; [exact HA|]. split; [exact HB|lia]. }
  destruct (contrast_cases self l1 log1 HA1 (fun H => proj1 (HB1 H)))
    as (l2 & Hc & Hw2 & Hp2 & Hm2 & Hno & Hmiss & Hcmp).
  exists l2, log1. split; [exact Hc|].
  assert (~ In (this_word self) (scored_words self num) ->
          ~ In (this_word self) (words l1)) as Hsub.
  { intros Hn Hin. apply Hn. unfold DICSpec.scored_words.
    rewrite Hks. replace (done ++ w :: rest) with ((done ++ [w]) ++ rest)
      by now rewrite <- app_assoc.
    rewrite filter_app, <- Hw1. apply in_or_app. now left. }
  assert (2 <= List.length (words l1) -> model l1 <> None) as Hbound.
  { intros H2. apply HB1. intros Hnil. rewrite Hnil in H2. cbn in H2. lia. }
  rewrite Hw2, Hp2, Hm2.
  split; [exact Hw1|]. split; [exact HA1|]. split; [exact HB1|].
  destruct (Nat.le_gt_cases (List.length (words l1)) 1) as [Hlen|Hlen].
  { rewrite (Hno Hlen), Hbm1, Hbs1.
    split; [exact HK|]. split; [exact Hkeep|].
    split; [intros _; apply Hsmall; lia|]. split; intros; lia. }
  destruct (in_dec string_dec (this_word self) (words l1)) as [Hin|Hnin].
  - destruct (Hcmp Hlen Hin) as [[Hb Hs]|(Hb & Hs & Hne)].
    + rewrite Hb.
      split; [intros _; now apply Hbound|].
      split; [intros _; now apply Hbound|].
      split; [intros; lia|]. split; [intros _; now apply Hbound|].
      reflexivity.
    + rewrite Hb, Hs, Hbm1, Hbs1.
      assert (best_model l <> None) as Hsome.
      { apply HK. now rewrite <- Hbs1. }
      split; [exact HK|]. split; [exact Hkeep|].
      split; [intros; lia|]. split; [intros _; exact Hsome|].
      intros _ Hn. exfalso. exact (Hsub Hn Hin).
  - destruct (Hmiss Hlen Hnin) as [Hb Hs]. rewrite Hb.
    split; [intros _; now apply Hbound|].
    split; [intros _; now apply Hbound|].
    split; [intros; lia|]. split; [intros _; now apply Hbound|].
    reflexivity.
Qed.

(** One round of [SelectorDIC.select] returns, and its effect on the best
    model depends on the words fitted and scored at its state count. *)
Lemma candidate_round self num l log :
  (forall w, In w (keys (ModelSelector.words self)) ->
             get (hwords self) w <> None) ->
  (forall n d e, hmm_fit n (random_state self) d = Raise e ->
                 e = ValueError) ->
  (forall m d e, hmm_score m d = Raise e -> e = ValueError) ->
  (best_score l <> NegInf -> best_model l <> None) ->
  exists l' log',
    candidate self num l log = (Ok tt, l', log')
    /\ (best_score l' <> NegInf -> best_model l' <> None)
    /\ (best_model l <> None -> best_model l' <> None)
    /\ (List.length (scored_words self num) <= 1 ->
        best_model l' = best_model l)
    /\ (2 <= List.length (scored_words self num) ->
        best_model l' <> None)
    /\ (2 <= List.length (scored_words self num) ->
        ~ In (this_word self) (scored_words self num) ->
        best_model l' = last_fit self num (keys (ModelSelector.words self))).
Proof.
  intros Hdata Hfit Hscore HK.
  unfold SelectorDIC.candidate, bind at 1, bind at 1, assign.
  destruct (for_each_total _ _ _ (word_body self num)
              (fun done l0 _ => round_inv self num (best_model l) done l0)
              (keys (ModelSelector.words self)))
    with (l := set_words [] (set_logP1 Dict.empty l)) (log := log)
    as (l' & log' & Hrun & Hw & _ & HB & HK' & Hkeep & Hsmall & Hbig & Hfb).
  - intros done w rest l0 log0 Hks Hinv.
    exact (word_body_round self num (best_model l) done w rest l0 log0
             Hdata Hfit Hscore Hks Hinv).
  - cbn. split; [reflexivity|]. split; [split; [congruence|contradiction]|].
    split; [congruence|]. split; [exact HK|]. split; [auto|].
    split; [reflexivity|]. split; intros; lia.
  - exists l', log'. split; [exact Hrun|].
    fold (scored_words self num) in Hw. rewrite <- Hw.
    split; [exact HK'|]. split; [exact Hkeep|]. split; [exact Hsmall|].
    split; [exact Hbig|].
    intros H2 Hn. rewrite (Hfb H2); [|rewrite <- Hw; exact Hn]. apply HB.
    intros Hnil. rewrite Hnil in H2. cbn in H2. lia.
Qed.

(** C5, as amended.  Provided every vocabulary word has data and fitting
    and scoring fail only with [ValueError], so that
    [SelectorDIC.select] returns:
    - a state count at which fewer than two words are fitted and scored
      accepts nothing, so [select] returns no model when that is so at
      every state count of the range, whatever fits succeed;
    - at a state count where at least two words are fitted and scored and
      the target word is not among them, the model most recently fitted
      there is accepted with no comparison: [select] returns it when no
      later state count has two words fitted and scored;
    - [select] returns a model as soon as at least two words are fitted
      and scored at some state count of the range. *)
Theorem dic_fallback self :
  (forall w, In w (keys (ModelSelector.words self)) ->
             get (hwords self) w <> None) ->
  (forall n d e, hmm_fit n (random_state self) d = Raise e ->
                 e = ValueError) ->
  (forall m d e, hmm_score m d = Raise e -> e = ValueError) ->
  ((forall num, In num (range self) ->
                List.length (scored_words self num) <= 1) ->
   fst (select self) = Ok None)
  /\ (forall before num after,
         range self = before ++ num :: after ->
         2 <= List.length (scored_words self num) ->
         ~ In (this_word self) (scored_words self num) ->
         (forall k, In k after ->
                    List.length (scored_words self k) <= 1) ->
         exists m,
           last_fit self num (keys (ModelSelector.words self)) = Some m
           /\ fst (select self) = Ok (Some m))
  /\ ((exists num, In num (range self)
                   /\ 2 <= List.length (scored_words self num)) ->
      exists m, fst (select self) = Ok (Some m)).
Proof.
  intros Hdata Hfit Hscore.
  unfold SelectorDIC.select, SelectorDIC.select_stmt, bind.
  fold (range self).
  destruct (for_each_total _ _ _ (candidate self)
              (fun done l _ =>
                 (best_score l <> NegInf -> best_model l <> None)
                 /\ ((forall num, In num done ->
                        List.length (scored_words self num) <= 1) ->
                     best_model l = None)
                 /\ ((exists num, In num done
                        /\ 2 <= List.length (scored_words self num)) ->
                     best_model l <> None)
                 /\ (forall before num after,
                        range self = before ++ num :: after ->
                        2 <= List.length (scored_words self num) ->
                        ~ In (this_word self) (scored_words self num) ->
                        (forall k, In k after ->
                           List.length (scored_words self k) <= 1) ->
                        List.length before < List.length done ->
                        best_model l
                        = last_fit self num
                            (keys (ModelSelector.words self))))
              (range self))
    with (l := init_locals Model) (log := @nil (event Model))
    as (l & log & Hrun & _ & Hnone & Hsome & Hfb).
  - intros done x rest l log Hr (HK & Hnone & Hsome & Hfb).
    destruct (candidate_round self x l log Hdata Hfit Hscore HK)
      as (l' & log' & Hc & HK' & Hkeep & Hsmall & Hbig & Hlast).
    exists l', log'. split; [exact Hc|]. split; [exact HK'|].
    split; [|split].
    + intros Hall. rewrite Hsmall.
      * apply Hnone. intros num Hin. apply Hall. apply in_or_app. now left.
      * apply Hall. apply in_or_app. right. now left.
    + intros (num & Hin & H2). apply in_app_or in Hin as [Hin|[<-|[]]].
      * apply Hkeep. apply Hsome. now exists num.
      * now apply Hbig.
    + intros before num after Hr' H2 Hn Hafter Hlen.
      rewrite length_app in Hlen. cbn in Hlen. rewrite Hr in Hr'.
      destruct (Nat.eq_dec (List.length done) (List.length before))
        as [Heq|Hne].
      * destruct (pivot_same _ x num rest after done before Hr' Heq)
          as [_ ->].
        now apply Hlast.
      * rewrite Hsmall.
        -- apply (Hfb before num after); auto; [now rewrite Hr|lia].
        -- apply Hafter.
           apply (pivot_later _ x num rest after done before Hr'). lia.
  - cbn. split; [contradiction|]. split; [reflexivity|].
    split; [intros (num & [] & _)|]. intros; lia.
  - rewrite Hrun. unfold read. cbn [fst].
    split; [|split].
    + intros Hall. now rewrite (Hnone Hall).
    + intros before num after Hr H2 Hn Hafter.
      assert (best_model l
              = last_fit self num (keys (ModelSelector.words self)))
        as Heq.
      { apply (Hfb before num after Hr H2 Hn Hafter).
        rewrite Hr, length_app. cbn. lia. }
      assert (best_model l <> None) as Hb.
      { apply Hsome. exists num. split; [|exact H2].
        rewrite Hr. apply in_or_app. right. now left. }
      destruct (best_model l) as [m|]; [|contradiction].
      exists m. split; [now rewrite <- Heq|reflexivity].
    + intros Hex. pose proof (Hsome Hex) as Hb.
      destruct (best_model l) as [m|]; [|contradiction]. now exists m.
Qed.
End DICFacts.

(** ** SelectorCV *)

Section CVFacts.
Import ModelSelector SelectorCV CVSpec.
Variable Model : Type.
Variable hmm_fit : nat -> nat -> Features -> result Model.
Variable hmm_score : Model -> Features -> result Q.

Local Abbreviation self_score := (self_score hmm_fit hmm_score).
Local Abbreviation single_trace := (single_trace hmm_fit).
Local Abbreviation candidate_single := (candidate_single hmm_fit hmm_score).
Local Abbreviation fold_outcome := (fold_outcome hmm_fit hmm_score).
Local Abbreviation fold_trace := (fold_trace hmm_fit).
Local Abbreviation folds_outcome := (folds_outcome hmm_fit hmm_score).
Local Abbreviation folds_trace := (folds_trace hmm_fit hmm_score).
Local Abbreviation cv_mean := (cv_mean hmm_fit hmm_score).
Local Abbreviation fold_body := (fold_body hmm_fit hmm_score).
Local Abbreviation candidate_folds := (candidate_folds hmm_fit hmm_score).
Local Abbreviation select := (select hmm_fit hmm_score).
Local Abbreviation select_stmt := (select_stmt hmm_fit hmm_score).
Local Abbreviation fold_step := (@fold_step Model).

Lemma candidate_single_run self num l log :
  exists l',
    candidate_single self num l log
    = (Ok tt, l', log ++ single_trace self num)
    /\ best l' = challenge l (self_score self num).
Proof.
  unfold SelectorCV.candidate_single, CVSpec.self_score, CVSpec.single_trace,
    base_model, call_fit, call_score_opt, call_score,
    try_except, bind, emit, lift, ret, read, when, assign, raise, challenge, best.
  destruct (hmm_fit _ _ _) as [m|e1].
  - destruct (hmm_score _ _) as [s|e2].
    + destruct (float_gtb (Fin s) (best_score l)) eqn:Hgt;
        eexists; (split; [rewrite <- app_assoc; reflexivity|reflexivity]).
    + eexists; (split; [rewrite <- app_assoc; reflexivity|reflexivity]).
  - eexists; (split; [reflexivity|reflexivity]).
Qed.

Lemma fold_body_ok self num fold o l log :
  fold_outcome self num fold = Some o ->
  fold_body self num fold l log
  = (Ok tt, fold_step l o, log ++ fold_trace self num fold).
Proof.
  destruct fold as [cv_train cv_test].
  unfold CVSpec.fold_outcome, CVSpec.fold_trace, SelectorCV.fold_body,
    call_fit, call_score, bind, emit, lift, assign, fold_step. cbn [fst snd].
  destruct (combine_sequences cv_train _) as [tr|]; [|discriminate].
  destruct (combine_sequences cv_test _) as [te|]; [|discriminate].
  destruct (hmm_fit _ _ _) as [m|]; [|discriminate].
  destruct (hmm_score _ _) as [s|]; [|discriminate].
  intros [= <-]. cbn [fst snd]. rewrite <- app_assoc. reflexivity.
Qed.

Lemma fold_body_fail self num fold l log :
  fold_outcome self num fold = None ->
  exists e l',
    fold_body self num fold l log
    = (Raise e, l', log ++ fold_trace self num fold)
    /\ best l' = best l.
Proof.
  destruct fold as [cv_train cv_test].
  unfold CVSpec.fold_outcome, CVSpec.fold_trace, SelectorCV.fold_body,
    call_fit, call_score, bind, emit, lift, assign, best. cbn [fst snd].
  destruct (combine_sequences cv_train _) as [tr|e1].
  - destruct (combine_sequences cv_test _) as [te|e2].
    + destruct (hmm_fit _ _ _) as [m|e3].
      * destruct (hmm_score _ _) as [s|e4]; [discriminate|].
        intros _. eexists _, _. rewrite <- app_assoc. split; reflexivity.
      * intros _. eexists _, _. split; reflexivity.
    + intros _. eexists _, _. rewrite app_nil_r. split; reflexivity.
  - intros _. eexists _, _. rewrite app_nil_r. split; reflexivity.
Qed.

Lemma folds_ok self num folds : forall os l log,
  folds_outcome self num folds = Some os ->
  for_each folds (fold_body self num) l log
  = (Ok tt, fold_left fold_step os l, log ++ folds_trace self num folds).
Proof.
  induction folds as [|fold rest IH]; intros os l log H; cbn in H |- *.
  - injection H as <-. rewrite app_nil_r. reflexivity.
  - destruct (fold_outcome self num fold) as [o|] eqn:Ho; [|discriminate].
    destruct (folds_outcome self num rest) as [os'|] eqn:Hos; [|discriminate].
    injection H as <-. unfold bind.
    rewrite (fold_body_ok _ _ _ _ _ _ Ho). rewrite (IH os' _ _ eq_refl).
    rewrite <- app_assoc. reflexivity.
Qed.

Lemma folds_fail self num folds : forall l log,
  folds_outcome self num folds = None ->
  exists e l',
    for_each folds (fold_body self num) l log
    = (Raise e, l', log ++ folds_trace self num folds)
    /\ best l' = best l.
Proof.
  induction folds as [|fold rest IH]; intros l log H; cbn in H |- *.
  - discriminate.
  - unfold bind.
    destruct (fold_outcome self num fold) as [o|] eqn:Ho.
    + rewrite (fold_body_ok _ _ _ _ _ _ Ho).
      destruct (folds_outcome self num rest) as [os'|] eqn:Hos; [discriminate|].
      destruct (IH (fold_step l o) (log ++ fold_trace self num fold) eq_refl)
        as (e & l' & Hrun & Hbest).
      exists e, l'. rewrite Hrun, <- app_assoc. split; [reflexivity|].
      rewrite Hbest. reflexivity.
    + destruct (fold_body_fail self num fold l log Ho) as (e & l' & Hrun & Hb).
      exists e, l'. rewrite Hrun, app_nil_r. split; [reflexivity|exact Hb].
Qed.

Lemma fold_left_step_best (os : list (Model * Q)) : forall l,
  best (fold_left fold_step os l) = best l.
Proof.
  induction os as [|o os IH]; intros l; cbn; [reflexivity|].
  rewrite IH. reflexivity.
Qed.

Lemma fold_left_step_log_sum (os : list (Model * Q)) : forall l,
  log_sum (fold_left fold_step os l)
  = fold_left Qplus (map snd os) (log_sum l).
Proof.
  induction os as [|o os IH]; intros l; cbn; [reflexivity|].
  rewrite IH. reflexivity.
Qed.

Lemma fold_left_step_length (os : list (Model * Q)) : forall l,
  length (fold_left fold_step os l) = length l + List.length os.
Proof.
  induction os as [|o os IH]; intros l; cbn; [lia|].
  rewrite IH. cbn. lia.
Qed.

Lemma fold_left_step_model (os : list (Model * Q)) : forall o l,
  model (fold_left fold_step (o :: os) l) = Some (fst (last (o :: os) o)).
Proof.
  induction os as [|o' os IH]; intros o l; [reflexivity|].
  change (fold_left fold_step (o :: o' :: os) l)
    with (fold_left fold_step (o' :: os) (fold_step l o)).
  rewrite IH. f_equal. f_equal.
  change (last (o :: o' :: os) o) with (last (o' :: os) o).
  clear. revert o'. induction os as [|x os IH]; intros o'; [reflexivity|].
  cbn in *. destruct os; [reflexivity|]. apply IH.
Qed.

Lemma py_div_positive (a : Q) (n : nat) :
  py_div a (inject_Z (Z.of_nat (S n))) = Ok (a / inject_Z (Z.of_nat (S n)))%Q.
Proof.
  unfold py_div.
  destruct (Qeq_bool _ 0) eqn:E; [|reflexivity].
  apply Qeq_bool_iff in E. unfold Qeq, inject_Z in E. cbn in E. lia.
Qed.

Lemma candidate_folds_run k self num folds l log :
  KFold.split k (List.length (sequences self)) = Ok folds ->
  exists l',
    candidate_folds k self num l log
    = (Ok tt, l',
       log ++ EvSplit k (List.length (sequences self))
           :: folds_trace self num folds)
    /\ best l' = challenge l (cv_mean self num folds).
Proof.
  intros Hsplit.
  unfold SelectorCV.candidate_folds, call_split, try_except, bind, assign,
    emit, lift, read, CVSpec.cv_mean.
  rewrite Hsplit.
  destruct (folds_outcome self num folds) as [os|] eqn:Hos.
  - rewrite (folds_ok _ _ _ _ _ _ Hos).
    rewrite fold_left_step_log_sum, fold_left_step_length.
    rewrite <- app_assoc. cbn [app set_length set_log_sum log_sum length].
    destruct os as [|o os].
    + cbn. eexists. split; reflexivity.
    + cbn [List.length Nat.add]. rewrite py_div_positive.
      unfold when, challenge, mean, py_sum.
      rewrite length_map. cbn [List.length].
      set (avg := (fold_left Qplus (map snd (o :: os)) 0
                   / inject_Z (Z.of_nat (S (List.length os))))%Q).
      pose proof (fold_left_step_best (o :: os)
                    (set_length 0 (set_log_sum 0%Q l))) as Hb.
      pose proof (fold_left_step_model os o
                    (set_length 0 (set_log_sum 0%Q l))) as Hm.
      destruct (fold_left fold_step (o :: os) _) as [bs bm ls ln md].
      unfold best in Hb. cbn in Hb, Hm. injection Hb as -> ->. subst md.
      clearbody avg.
      cbn [SelectorCV.best_score].
      destruct (float_gtb (Fin avg) (best_score l)) eqn:Hgt;
        eexists; (split; [reflexivity|]); reflexivity.
  - destruct (folds_fail self num folds
                (set_length 0 (set_log_sum 0%Q l))
                (log ++ [EvSplit k (List.length (sequences self))]) Hos)
      as (e & l' & Hrun & Hb).
    rewrite Hrun. rewrite <- app_assoc. eexists. split; [reflexivity|].
    rewrite Hb. reflexivity.
Qed.

Lemma select_single_run self :
  Nat.min 3 (List.length (sequences self)) = 1 ->
  exists l,
    select_stmt self (init_locals Model) []
    = (Ok (best_model l), l, flat_map (single_trace self) (range self))
    /\ is_argmax (self_score self) (range self) (best l).
Proof.
  intros Hk. unfold SelectorCV.select_stmt. rewrite Hk. cbn [Nat.eqb].
  destruct (for_each_total _ _ _ (candidate_single self)
              (fun done l log =>
                 log = flat_map (single_trace self) done
                 /\ is_argmax (self_score self) done (best l))
              (range self)) with (l := init_locals Model)
                                 (log := @nil (event Model))
    as (l & log & Hrun & -> & Hmax).
  - intros done num rest l log _ [-> Hmax].
    destruct (candidate_single_run self num l
                (flat_map (single_trace self) done)) as (l' & Hrun & Hb).
    exists l', (flat_map (single_trace self) done ++ single_trace self num).
    split; [exact Hrun|]. split.
    + rewrite flat_map_app. cbn [flat_map]. now rewrite app_nil_r.
    + apply (is_argmax_step Model (self_score self) done num l l'); auto.
  - split; [reflexivity|apply is_argmax_nil].
  - exists l. unfold bind, read. unfold range in Hrun. rewrite Hrun.
    split; [reflexivity|exact Hmax].
Qed.

Lemma select_folds_run self folds :
  2 <= List.length (sequences self) ->
  KFold.split (Nat.min 3 (List.length (sequences self)))
              (List.length (sequences self)) = Ok folds ->
  exists l,
    select_stmt self (init_locals Model) []
    = (Ok (best_model l), l,
       flat_map (fun num =>
                   EvSplit (Nat.min 3 (List.length (sequences self)))
                           (List.length (sequences self))
                     :: folds_trace self num folds) (range self))
    /\ is_argmax (fun num => cv_mean self num folds) (range self) (best l).
Proof.
  intros Hn Hsplit. unfold SelectorCV.select_stmt.
  set (n := List.length (sequences self)) in *.
  set (k := Nat.min 3 n) in *.
  assert (2 <= k) as Hk by lia.
  destruct (Nat.eqb_spec k 1) as [|_]; [lia|].
  unfold KFold.make. destruct (Nat.leb_spec k 1) as [|_]; [lia|].
  set (trace := fun num => EvSplit (Model:=Model) k n :: folds_trace self num folds).
  destruct (for_each_total _ _ _ (candidate_folds k self)
              (fun done l log =>
                 log = flat_map trace done
                 /\ is_argmax (fun num => cv_mean self num folds) done (best l))
              (range self)) with (l := init_locals Model)
                                 (log := @nil (event Model))
    as (l & log & Hrun & -> & Hmax).
  - intros done num rest l log _ [-> Hmax].
    destruct (candidate_folds_run k self num folds l
                (flat_map trace done) Hsplit) as (l' & Hrun & Hb).
    exists l', (flat_map trace done ++ trace num).
    split; [exact Hrun|]. split.
    + rewrite flat_map_app. cbn [flat_map]. now rewrite app_nil_r.
    + apply (is_argmax_step Model (fun num => cv_mean self num folds)
               done num l l'); auto.
  - split; [reflexivity|apply is_argmax_nil].
  - exists l. unfold bind, read, lift. unfold range in Hrun. rewrite Hrun.
    split; [reflexivity|exact Hmax].
Qed.

Lemma single_trace_no_split self done k n :
  ~ In (EvSplit k n) (flat_map (single_trace self) done).
Proof.
  intros Hin. apply in_flat_map in Hin as (num & _ & Hin).
  unfold CVSpec.single_trace in Hin.
  destruct Hin as [Hin|Hin]; [discriminate|].
  destruct (hmm_fit _ _ _); [destruct Hin as [Hin|[]]; discriminate|destruct Hin].
Qed.

(** C8.  A word with exactly one training instance takes the degenerate
    path: [select] returns; its library calls are, per state count in
    ascending order, one fit on the word's data followed (when the fit
    succeeded) by one score of that fit on the same data; no fold split is
    ever requested; and the returned model is a fit whose self-score is
    maximal among the state counts whose fit and self-score succeed. *)
Theorem cv_select_single_instance self :
  List.length (sequences self) = 1 ->
  let data := (X self, lengths self) in
  exists best log,
    select self = (Ok best, log)
    /\ log = flat_map
               (fun num =>
                  EvFit num data
                    :: match hmm_fit num (random_state self) data with
                       | Ok m => [EvScore m data]
                       | Raise _ => []
                       end) (range self)
    /\ (forall k n, ~ In (EvSplit k n) log)
    /\ (forall num m s,
           In num (range self) ->
           hmm_fit num (random_state self) data = Ok m ->
           hmm_score m data = Ok s ->
           exists num' m' s',
             In num' (range self)
             /\ hmm_fit num' (random_state self) data = Ok m'
             /\ hmm_score m' data = Ok s'
             /\ best = Some m' /\ (s <= s')%Q)
    /\ (best = None ->
        forall num, In num (range self) -> self_score self num = None).
Proof.
  intros Hn data.
  destruct (select_single_run self) as (l & Hrun & Hmax & Hb).
  { rewrite Hn. reflexivity. }
  exists (best_model l), (flat_map (single_trace self) (range self)).
  split; [|split; [|split; [|split]]].
  - unfold SelectorCV.select. rewrite Hrun. reflexivity.
  - reflexivity.
  - intros k n. apply single_trace_no_split.
  - intros num m s Hin Hfit Hscore.
    destruct (Hmax num m s Hin) as (num' & m' & s' & Hin' & Hq & Hbest & Hle).
    { unfold CVSpec.self_score. fold data. now rewrite Hfit, Hscore. }
    unfold CVSpec.self_score in Hq. fold data in Hq.
    destruct (hmm_fit num' _ data) as [m1|] eqn:Hf; [|discriminate].
    destruct (hmm_score m1 data) as [s1|] eqn:Hs; [|discriminate].
    injection Hq as <- <-. injection Hbest as _ Hbm.
    exists num', m1, s1. repeat split; auto.
  - intros Hnone num Hin.
    destruct (self_score self num) as [[m s]|] eqn:Hq; [|reflexivity].
    destruct (Hmax num m s Hin Hq) as (? & ? & ? & _ & _ & Hbest & _).
    injection Hbest as _ Hbm. congruence.
Qed.

Lemma folds_outcome_length self num folds : forall os,
  folds_outcome self num folds = Some os ->
  List.length os = List.length folds.
Proof.
  induction folds as [|fold rest IH]; intros os H; cbn in H.
  - now injection H as <-.
  - destruct (fold_outcome self num fold); [|discriminate].
    destruct (folds_outcome self num rest) as [os'|]; [|discriminate].
    injection H as <-. cbn. now rewrite (IH os').
Qed.

Lemma folds_outcome_In self num folds : forall os fold,
  folds_outcome self num folds = Some os ->
  In fold folds -> exists o, fold_outcome self num fold = Some o.
Proof.
  induction folds as [|f rest IH]; intros os fold H Hin; cbn in H;
    [contradiction|].
  destruct (fold_outcome self num f) as [o|] eqn:Ho; [|discriminate].
  destruct (folds_outcome self num rest) as [os'|]; [|discriminate].
  destruct Hin as [<-|Hin]; [now exists o|].
  now apply (IH os').
Qed.

Lemma folds_outcome_last self num folds : forall o os d,
  folds_outcome self num folds = Some (o :: os) ->
  fold_outcome self num (last folds d) = Some (last (o :: os) o).
Proof.
  induction folds as [|f rest IH]; intros o os d H; cbn in H; [discriminate|].
  destruct (fold_outcome self num f) as [o1|] eqn:Ho; [|discriminate].
  destruct (folds_outcome self num rest) as [os'|] eqn:Hos; [|discriminate].
  injection H as -> ->.
  destruct rest as [|f' rest'].
  - cbn in Hos. injection Hos as <-. exact Ho.
  - destruct os as [|o' os''].
    + apply folds_outcome_length in Hos. discriminate.
    + change (last (f :: f' :: rest') d) with (last (f' :: rest') d).
      change (last (o :: o' :: os'') o) with (last (o' :: os'') o).
      rewrite (IH o' os'' d eq_refl). f_equal.
      clear. revert o'. induction os'' as [|x xs IHx]; intros o'; [reflexivity|].
      cbn in *. destruct xs; [reflexivity|]. apply IHx.
Qed.

Lemma folds_trace_fit self num folds n d :
  In (EvFit n d) (folds_trace self num folds) ->
  exists fold,
    In fold folds /\ combine_sequences (fst fold) (sequences self) = Ok d.
Proof.
  induction folds as [|f rest IH]; cbn; [contradiction|].
  intros Hin. apply in_app_or in Hin as [Hin|Hin].
  - exists f. split; [now left|].
    unfold CVSpec.fold_trace in Hin.
    destruct (combine_sequences (fst f) _) as [held_in|]; [|destruct Hin].
    destruct (combine_sequences (snd f) _) as [held_out|]; [|destruct Hin].
    destruct Hin as [Hin|Hin]; [now injection Hin as _ ->|].
    destruct (hmm_fit _ _ _); [destruct Hin as [Hin|[]]; discriminate|destruct Hin].
  - destruct (fold_outcome self num f); [|destruct Hin].
    destruct (IH Hin) as (fold & Hf & Hc). exists fold. split; [now right|exact Hc].
Qed.

(** C7.  For a word with at least two training instances, every state
    count is evaluated on the [k = min(3, instance_count)] folds that
    [KFold] yields: there are exactly [k] of them, their held-out parts are
    consecutive runs of positions that together cover the instances in
    order, and each held-in part is the rest.  Per state count the library
    calls are one split followed by, fold by fold, a fit on the held-in
    instances and a score of that fit on the held-out ones (nothing after a
    failing fold).  The quality of a state count whose folds all succeed is
    the arithmetic mean of its [k] fold scores, and [select] returns the
    model of a state count whose mean is maximal among those. *)
Theorem cv_select_folds self :
  2 <= List.length (sequences self) ->
  let n := List.length (sequences self) in
  let k := Nat.min 3 n in
  exists folds best log,
    KFold.split k n = Ok folds
    /\ List.length folds = k
    /\ concat (map snd folds) = seq 0 n
    /\ (forall train test,
           In (train, test) folds ->
           exists start size,
             1 <= size /\ start + size <= n
             /\ test = seq start size
             /\ train = seq 0 start ++ seq (start + size) (n - (start + size)))
    /\ select self = (Ok best, log)
    /\ log = flat_map
               (fun num => EvSplit k n :: folds_trace self num folds)
               (range self)
    /\ (forall num m avg,
           In num (range self) ->
           cv_mean self num folds = Some (m, avg) ->
           (exists os,
               folds_outcome self num folds = Some os
               /\ List.length os = k
               /\ avg = mean (map snd os))
           /\ exists num' m' avg',
               In num' (range self)
               /\ cv_mean self num' folds = Some (m', avg')
               /\ best = Some m' /\ (avg <= avg')%Q).
Proof.
  intros Hn n k.
  destruct (split_ok k n) as (folds & Hsplit & Hlen & Hcover & Hshape);
    [subst k n; lia|subst k n; lia|].
  destruct (select_folds_run self folds Hn Hsplit) as (l & Hrun & Hmax & _).
  exists folds, (best_model l), (flat_map
               (fun num => EvSplit k n :: folds_trace self num folds)
               (range self)).
  repeat (split; [assumption|]). split; [|split; [reflexivity|]].
  - unfold SelectorCV.select. rewrite Hrun. reflexivity.
  - intros num m avg Hin Hq. split.
    + unfold CVSpec.cv_mean in Hq.
      destruct (folds_outcome self num folds) as [[|o os]|] eqn:Hos;
        try discriminate.
      exists (o :: os). split; [reflexivity|]. split.
      * rewrite (folds_outcome_length _ _ _ _ Hos). exact Hlen.
      * now injection Hq as _ <-.
    + destruct (Hmax num m avg Hin Hq) as (num' & m' & s' & H1 & H2 & H3 & H4).
      exists num', m', s'. injection H3 as _ H3. auto.
Qed.

(** C10.  For a word with at least two training instances, a model that
    [select] returns was fitted on the held-in instances of the final fold
    at a state count whose mean fold score is maximal; and every fit that
    [select] requests is on the held-in instances of some fold, which leave
    at least one instance out: the winner is never refitted on all the
    instances. *)
Theorem cv_select_returns_final_fold_model self m log :
  2 <= List.length (sequences self) ->
  select self = (Ok (Some m), log) ->
  let n := List.length (sequences self) in
  let k := Nat.min 3 n in
  exists folds,
    KFold.split k n = Ok folds
    /\ (exists num train test held_in avg,
           In num (range self)
           /\ last folds ([], []) = (train, test)
           /\ combine_sequences train (sequences self) = Ok held_in
           /\ hmm_fit num (random_state self) held_in = Ok m
           /\ cv_mean self num folds = Some (m, avg)
           /\ forall num' m' avg',
               In num' (range self) ->
               cv_mean self num' folds = Some (m', avg') ->
               (avg' <= avg)%Q)
    /\ (forall num d,
           In (EvFit num d) log ->
           exists train test,
             In (train, test) folds
             /\ combine_sequences train (sequences self) = Ok d
             /\ List.length train < n).
Proof.
  intros Hn Hsel n k.
  destruct (split_ok k n) as (folds & Hsplit & Hlen & Hcover & Hshape);
    [subst k n; lia|subst k n; lia|].
  destruct (select_folds_run self folds Hn Hsplit) as (l & Hrun & Hmax & Hb).
  unfold SelectorCV.select in Hsel. rewrite Hrun in Hsel.
  injection Hsel as Hbm <-.
  exists folds. split; [exact Hsplit|]. split.
  - destruct Hb as [Hb|(num & m' & avg & Hin & Hq & Hbest)].
    + injection Hb as _ Hb. congruence.
    + injection Hbest as Hbs Hbm'. rewrite Hbm in Hbm'. injection Hbm' as <-.
      destruct (last folds ([], [])) as [train test] eqn:Hlast.
      pose proof Hq as Hq'. unfold CVSpec.cv_mean in Hq'.
      destruct (folds_outcome self num folds) as [[|o os]|] eqn:Hos;
        try discriminate.
      injection Hq' as Hm _.
      pose proof (folds_outcome_last self num folds o os ([], []) Hos) as Hl.
      rewrite Hlast in Hl. unfold CVSpec.fold_outcome in Hl. cbn [fst snd] in Hl.
      destruct (combine_sequences train _) as [held_in|] eqn:Hc; [|discriminate].
      destruct (combine_sequences test _) as [held_out|]; [|discriminate].
      destruct (hmm_fit _ _ held_in) as [m1|] eqn:Hf; [|discriminate].
      destruct (hmm_score m1 held_out) as [s1|]; [|discriminate].
      injection Hl as Hl. rewrite <- Hl in Hm. cbn in Hm. subst m1.
      exists num, train, test, held_in, avg.
      repeat split; auto.
      intros num' m' avg' Hin' Hq''.
      destruct (Hmax num' m' avg' Hin' Hq'')
        as (? & ? & s' & _ & _ & Hbest & Hle).
      unfold best in Hbest. rewrite Hbs in Hbest.
      injection Hbest as Heq _. rewrite Heq. exact Hle.
  - intros num d Hin. apply in_flat_map in Hin as (num0 & _ & Hin).
    destruct Hin as [Hin|Hin]; [discriminate|].
    pose proof (folds_trace_fit self num0 folds num d Hin) as Hfit.
    destruct Hfit as ([train test] & Hf & Hc).
    exists train, test. split; [exact Hf|]. split; [exact Hc|].
    destruct (Hshape train test Hf) as (start & size & H1 & H2 & _ & ->).
    rewrite length_app, !length_seq. lia.
Qed.

Local Abbreviation quality := (CVQuality.quality hmm_fit hmm_score).

(** With no training instance, [min(3, 0)] is 0 and [KFold(0)] raises
    outside every [try]: [SelectorCV.select] raises [ValueError] before
    any fit. *)
Theorem cv_select_no_instance self :
  sequences self = [] ->
  select self = (Raise ValueError, []).
Proof.
  intros Hs. unfold SelectorCV.select, SelectorCV.select_stmt.
  rewrite Hs. reflexivity.
Qed.

Lemma first_max_step (q : nat -> option (Model * Q)) done num
  (l l' : locals Model) :
  Ties.first_max q done (best l) ->
  best l' = challenge l (q num) ->
  Ties.first_max q (done ++ [num]) (best l').
Proof.
  intros Hmax ->. unfold challenge, best in *.
  destruct (q num) as [[m s]|] eqn:Hq.
  - destruct Hmax as [[Hb Hnone]|
                      (before & n & after & m0 & v0 & Hd & Hqn & Hb & Hle & Hlt)].
    + injection Hb as Hbs Hbm. rewrite Hbs. cbn [float_gtb float_ltb].
      right. exists done, num, [], m, s. repeat split; auto.
      * intros k m' v' Hin Hqk. apply in_app_or in Hin as [Hin|[<-|[]]].
        -- rewrite (Hnone k Hin) in Hqk. discriminate.
        -- rewrite Hq in Hqk. injection Hqk as _ <-. apply Qle_refl.
      * intros k m' v' Hin Hqk. rewrite (Hnone k Hin) in Hqk. discriminate.
    + injection Hb as Hbs Hbm. rewrite Hbs. cbn [float_gtb float_ltb].
      destruct (Qltb v0 s) eqn:Hcmp.
      * apply Qltb_lt in Hcmp. right.
        exists done, num, [], m, s. repeat split; auto.
        -- intros k m' v' Hin Hqk. apply in_app_or in Hin as [Hin|[<-|[]]].
           ++ apply Qlt_le_weak. eapply Qle_lt_trans; [|exact Hcmp].
              now apply (Hle k m' v').
           ++ rewrite Hq in Hqk. injection Hqk as _ <-. apply Qle_refl.
        -- intros k m' v' Hin Hqk. eapply Qle_lt_trans; [|exact Hcmp].
           now apply (Hle k m' v').
      * apply Qltb_ge in Hcmp. rewrite <- Hbs, Hbm. rewrite Hbs. right.
        exists before, n, (after ++ [num]), m0, v0. repeat split; auto.
        -- rewrite Hd, <- app_assoc. reflexivity.
        -- intros k m' v' Hin Hqk. apply in_app_or in Hin as [Hin|[<-|[]]].
           ++ now apply (Hle k m' v').
           ++ rewrite Hq in Hqk. now injection Hqk as _ <-.
  - destruct Hmax as [[Hb Hnone]|
                      (before & n & after & m0 & v0 & Hd & Hqn & Hb & Hle & Hlt)].
    + left. split; [exact Hb|].
      intros k Hin. apply in_app_or in Hin as [Hin|[<-|[]]]; auto.
    + right. exists before, n, (after ++ [num]), m0, v0. repeat split; auto.
      * rewrite Hd, <- app_assoc. reflexivity.
      * intros k m' v' Hin Hqk. apply in_app_or in Hin as [Hin|[<-|[]]].
        -- now apply (Hle k m' v').
        -- congruence.
Qed.

(** Both paths of [select], as one loop over the range that keeps the
    first maximum of [quality]. *)
Lemma select_first_max self :
  1 <= List.length (sequences self) ->
  exists l log,
    select self = (Ok (best_model l), log)
    /\ Ties.first_max (quality self) (range self) (best l).
Proof.
  intros Hn. unfold SelectorCV.select, SelectorCV.select_stmt.
  set (n := List.length (sequences self)) in *.
  destruct (Nat.eqb_spec (Nat.min 3 n) 1) as [Hk|Hk].
  - destruct (for_each_total _ _ _ (candidate_single self)
                (fun done l _ => Ties.first_max (quality self) done (best l))
                (range self)) with (l := init_locals Model)
                                   (log := @nil (event Model))
      as (l & log & Hrun & Hmax).
    + intros done num rest l log _ Hmax.
      destruct (candidate_single_run self num l log) as (l' & Hrun & Hb).
      exists l', (log ++ single_trace self num). split; [exact Hrun|].
      apply (first_max_step (quality self) done num l l' Hmax).
      rewrite Hb. unfold CVQuality.quality. fold n.
      now rewrite Hk.
    + left. split; [reflexivity|intros k []].
    + exists l, log. unfold bind, read. unfold range in Hrun.
      rewrite Hrun. split; [reflexivity|exact Hmax].
  - assert (2 <= n) as Hn2 by lia.
    destruct (split_ok (Nat.min 3 n) n) as (folds & Hsplit & _);
      [lia|lia|].
    unfold KFold.make. destruct (Nat.leb_spec (Nat.min 3 n) 1) as [|_];
      [lia|].
    destruct (for_each_total _ _ _ (candidate_folds (Nat.min 3 n) self)
                (fun done l _ => Ties.first_max (quality self) done (best l))
                (range self)) with (l := init_locals Model)
                                   (log := @nil (event Model))
      as (l & log & Hrun & Hmax).
    + intros done num rest l log _ Hmax.
      destruct (candidate_folds_run (Nat.min 3 n) self num folds l log
                  Hsplit) as (l' & Hrun & Hb).
      eexists l', _. split; [exact Hrun|].
      apply (first_max_step (quality self) done num l l' Hmax).
      rewrite Hb. unfold CVQuality.quality. fold n.
      destruct (Nat.eqb_spec (Nat.min 3 n) 1) as [|_]; [contradiction|].
      now rewrite Hsplit.
    + left. split; [reflexivity|intros k []].
    + exists l, log. unfold bind, read, lift. unfold range in Hrun.
      rewrite Hrun. split; [reflexivity|exact Hmax].
Qed.

(** For a word with at least one training instance, [SelectorCV.select]
    never raises, and it returns no model exactly when no state count of
    the range has a quality: on every one of them the fit or the
    self-score fails (one instance), or some fold fails to fit or to score
    (several). *)
Theorem cv_select_none_iff_no_quality self :
  1 <= List.length (sequences self) ->
  exists best,
    fst (select self) = Ok best
    /\ (best = None
        <-> forall num, In num (range self) -> quality self num = None).
Proof.
  intros Hn. destruct (select_first_max self Hn) as (l & log & -> & Hmax).
  exists (best_model l). split; [reflexivity|].
  unfold best in Hmax. split.
  - intros Hb.
    destruct Hmax as [[_ Hnone]|(? & ? & ? & ? & ? & _ & _ & Hb' & _)];
      [exact Hnone|].
    injection Hb' as _ Hb'. congruence.
  - intros Hnone.
    destruct Hmax as [[Hb _]|(before & n & after & m & v & Hd & Hq & _)].
    + now injection Hb as _ ->.
    + rewrite Hnone in Hq; [discriminate|].
      rewrite Hd. apply in_or_app. right. now left.
Qed.

(** Ties in [SelectorCV.select] go to the smallest state count: the model
    returned belongs to a state count whose quality is at least that of
    every state count of the range, and strictly above that of every
    smaller one. *)
Theorem cv_select_first_maximum self m :
  1 <= List.length (sequences self) ->
  fst (select self) = Ok (Some m) ->
  exists num q,
    In num (range self)
    /\ quality self num = Some (m, q)
    /\ forall k mk qk,
        In k (range self) ->
        quality self k = Some (mk, qk) ->
        (qk <= q)%Q /\ (k < num -> (qk < q)%Q).
Proof.
  intros Hn. destruct (select_first_max self Hn) as (l & log & -> & Hmax).
  cbn [fst]. unfold best in Hmax. intros [= Hb].
  destruct Hmax as [[Hb' _]|
                    (before & n & after & m0 & v & Hd & Hq & Hb' & Hle & Hlt)].
  { injection Hb' as _ Hb'. congruence. }
  injection Hb' as _ Hb'. rewrite Hb in Hb'. injection Hb' as <-.
  exists n, v. split; [|split; [exact Hq|]].
  - rewrite Hd. apply in_or_app. right. now left.
  - intros k mk qk Hin Hqk. split; [now apply (Hle k mk qk)|].
    intros Hlt'. apply (Hlt k mk qk); [|exact Hqk].
    unfold range, py_range in Hd, Hin. rewrite Hd in Hin.
    apply (seq_before (min_n_components self)
             (max_n_components self + 1 - min_n_components self)
             before n after [] k); [|exact Hin|exact Hlt'].
    now rewrite app_nil_r.
Qed.
End CVFacts.

(** ** The defects, run on the fixtures *)

Section Runs.
Import ModelSelector Fixture.

(** C1 fails on the code.  With the table ["A"], ["B"] and one item on
    which ["A"] scores -5 and ["B"] fails, [recognize] records 0 for ["B"]
    but compares the stale -5 for it: the guess is ["A"], whose recorded
    score -5 is below the maximum 0 of the item's mapping. *)
Theorem recognize_guess_below_maximum :
  exists p,
    Recognizer.recognize scores models_AB [item 0]
    = Ok ([p], [Some "A"%string])
    /\ scores 2 (snd (item 0)) = Raise ValueError
    /\ get p "A"%string = Some (-5 # 1)%Q
    /\ get p "B"%string = Some 0%Q
    /\ (-5 # 1 < 0)%Q.
Proof.
  eexists. split; [vm_compute; reflexivity|].
  repeat split.
Qed.

(** C6 fails on the code.  With the one-word table ["B"] failing on the
    first of two items, the sentinel 0 is stored for ["B"] and then the
    comparison raises [UnboundLocalError]: no mapping is appended and the
    second item, which ["B"] would score, is never scored. *)
Theorem recognize_aborts_on_first_failure :
  Recognizer.recognize scores models_B [item 0; item 2]
  = Raise UnboundLocalError
  /\ scores 2 (snd (item 0)) = Raise ValueError
  /\ scores 2 (snd (item 2)) = Ok 2%Q
  /\ exists l,
      Recognizer.recognize_stmt scores models_B [item 0; item 2]
        (Recognizer.init [item 0; item 2]) []
      = (Raise UnboundLocalError, l, [EvScore 2 (snd (item 0))])
      /\ get (Recognizer.p l) "B"%string = Some 0%Q
      /\ Recognizer.probabilities l = [].
Proof.
  split; [vm_compute; reflexivity|].
  split; [reflexivity|]. split; [reflexivity|].
  eexists. split; [vm_compute; reflexivity|].
  split; reflexivity.
Qed.

(** C2 fails on the code.  With state counts 2..4 where fitting 3 states
    fails, [SelectorBIC.select] returns the model of 2 states and never
    fits 4 states, although that fit and its score succeed with a lower
    BIC: the [try] encloses the whole loop. *)
Theorem bic_select_stops_at_first_failure :
  let data := (X one_word, lengths one_word) in
  SelectorBIC.select fit_not_3 score_by_states log_rows one_word
  = (Ok (Some (2, [1])),
     [EvFit 2 data; EvScore (2, [1]) data; EvFit 3 data])
  /\ fit_not_3 3 14 data = Raise ValueError
  /\ BICSpec.scored fit_not_3 score_by_states log_rows one_word 2
     = Some ((2, [1]), SelectorBIC.bic log_rows one_word 2 2 (-10 # 1))
  /\ BICSpec.scored fit_not_3 score_by_states log_rows one_word 4
     = Some ((4, [1]), SelectorBIC.bic log_rows one_word 4 2 (-1 # 1))
  /\ (SelectorBIC.bic log_rows one_word 4 2 (-1 # 1)
      < SelectorBIC.bic log_rows one_word 2 2 (-10 # 1))%Q.
Proof.
  cbv zeta. split; [vm_compute; reflexivity|].
  split; [reflexivity|]. split; [reflexivity|]. split; [reflexivity|].
  vm_compute. reflexivity.
Qed.

(** C3 fails on the code.  The word has one frame of two features, and
    fitting 3 states fails.  [SelectorBIC.select] returns the model of 2
    states, whose BIC is 20, although 4 is a state count of the range
    whose fit and score succeed with BIC 2: the model returned does not
    have the least BIC among the successfully scored state counts of the
    range, those behind the failure are never compared. *)
Theorem bic_select_not_minimal_in_range :
  let data := (X one_word, lengths one_word) in
  let BIC (n : nat) (logL : Q) : Q :=
    SelectorBIC.bic log_rows one_word n 2 logL in
  X one_word = [frame 1 2]
  /\ fst (SelectorBIC.select fit_not_3 score_by_states log_rows one_word)
     = Ok (Some (2, [1]))
  /\ fit_not_3 2 14 data = Ok (2, [1])
  /\ score_by_states (2, [1]) data = Ok (-10 # 1)%Q
  /\ In 4 (range one_word)
  /\ fit_not_3 4 14 data = Ok (4, [1])
  /\ score_by_states (4, [1]) data = Ok (-1 # 1)%Q
  /\ (BIC 2%nat (-10 # 1) == 20)%Q
  /\ (BIC 4%nat (-1 # 1) == 2)%Q
  /\ (BIC 4%nat (-1 # 1) < BIC 2%nat (-10 # 1))%Q
  /\ ~ In (EvFit 4 data)
         (snd (SelectorBIC.select fit_not_3 score_by_states log_rows
                 one_word)).
Proof.
  cbv zeta. split; [reflexivity|]. split; [vm_compute; reflexivity|].
  split; [reflexivity|]. split; [reflexivity|].
  split; [cbn; tauto|]. split; [reflexivity|]. split; [reflexivity|].
  split; [vm_compute; reflexivity|]. split; [vm_compute; reflexivity|].
  split; [vm_compute; reflexivity|].
  vm_compute. intros [H|[H|[H|[]]]]; discriminate.
Qed.

(** C4 fails on the code.  With the vocabulary ["A"] (the target), ["B"]
    and the single state count 2, [SelectorDIC.select] returns the model
    fitted on the data of ["B"], the word fitted last, not the model of
    the target word. *)
Theorem dic_select_returns_other_word_model :
  SelectorDIC.select fit_all score_by_word two_words
  = (Ok (Some (2, [2])),
     [EvFit 2 data_A; EvScore (2, [1]) data_A;
      EvFit 2 data_B; EvScore (2, [2]) data_B])
  /\ fit_all 2 14 data_B = Ok (2, [2])
  /\ fit_all 2 14 data_A = Ok (2, [1])
  /\ get (ModelSelector.hwords two_words) (ModelSelector.this_word two_words)
     = Some data_A
  /\ (2, [1]) <> (2, [2]).
Proof.
  split; [vm_compute; reflexivity|].
  repeat split. discriminate.
Qed.

(** C5 fails as stated.  With the one-word vocabulary ["A"] every fit and
    score succeeds, fewer than two words are ever fitted at a state count,
    and [SelectorDIC.select] returns no model: there is no fallback. *)
Theorem dic_no_model_despite_fits :
  let data := (X one_word, lengths one_word) in
  SelectorDIC.select fit_all score_by_word one_word
  = (Ok None,
     [EvFit 2 data; EvScore (2, [1]) data;
      EvFit 3 data; EvScore (3, [1]) data;
      EvFit 4 data; EvScore (4, [1]) data])
  /\ fit_all 2 14 data = Ok (2, [1])
  /\ score_by_word (2, [1]) data = Ok (-1 # 1)%Q.
Proof.
  cbv zeta. split; [vm_compute; reflexivity|].
  split; reflexivity.
Qed.

(** ** The theorems at concrete inputs *)

Lemma bic_select_minimal_witness :
  X one_word = [frame 1 2]
  /\ exists best log,
      SelectorBIC.select fit_not_3 score_by_states log_rows one_word
      = (Ok best, log).
Proof.
  split; [reflexivity|].
  destruct (bic_select_minimal Model fit_not_3 score_by_states log_rows
              one_word (frame 1 2) [] eq_refl) as (best & log & H & _).
  exists best, log. exact H.
Defined.

Lemma dic_fallback_witness :
  range Fixture2.three_words = [2; 3]
  /\ DICSpec.scored_words Fixture2.fit_others score_by_word
       Fixture2.three_words 2 = ["B"; "C"]%string
  /\ DICSpec.scored_words Fixture2.fit_others score_by_word
       Fixture2.three_words 3 = ["C"]%string
  /\ fst (SelectorDIC.select Fixture2.fit_others score_by_word
            Fixture2.three_words) = Ok (Some (2, [3])).
Proof.
  split; [reflexivity|]. split; [reflexivity|]. split; [reflexivity|].
  assert (forall w, In w (keys (words Fixture2.three_words)) ->
                    get (hwords Fixture2.three_words) w <> None) as Hdata
      by (intros w [<-|[<-|[<-|[]]]]; discriminate).
  assert (forall n d e,
             Fixture2.fit_others n 14 d = Raise e -> e = ValueError) as Hfit.
  { intros n d e. unfold Fixture2.fit_others.
    destruct (snd d) as [|[|[|[|?]]] [|? ?]];
      try discriminate; try (intros [= <-]; reflexivity);
      destruct n as [|[|[|[|?]]]];
      try discriminate; intros [= <-]; reflexivity. }
  assert (forall m d e, score_by_word m d = Raise e -> e = ValueError)
    as Hscore.
  { intros m d e. unfold score_by_word.
    destruct (snd m) as [|[|[|?]] [|? ?]]; discriminate. }
  destruct (proj1 (proj2 (dic_fallback Model Fixture2.fit_others
                            score_by_word Fixture2.three_words
                            Hdata Hfit Hscore))
              [] 2 [3] eq_refl) as (m & Hlast & Hsel).
  - cbn. lia.
  - cbn. intros [H|[H|[]]]; discriminate.
  - intros k [<-|[]]. cbn. lia.
  - rewrite Hsel. cbn in Hlast. now injection Hlast as <-.
Defined.

Lemma cv_select_single_instance_witness :
  List.length (sequences one_word) = 1
  /\ exists best log,
      SelectorCV.select fit_all score_more_states one_word = (Ok best, log)
      /\ forall k n, ~ In (EvSplit k n) log.
Proof.
  split; [reflexivity|].
  destruct (cv_select_single_instance Model fit_all score_more_states
              one_word eq_refl) as (best & log & H & _ & Hsplit & _).
  exists best, log. split; [exact H|exact Hsplit].
Defined.

Lemma cv_select_folds_witness :
  2 <= List.length (sequences three_instances)
  /\ exists folds best log,
      KFold.split 3 3 = Ok folds
      /\ List.length folds = 3
      /\ SelectorCV.select fit_all score_more_states three_instances
         = (Ok best, log).
Proof.
  assert (2 <= List.length (sequences three_instances)) as Hn by (cbn; lia).
  split; [exact Hn|].
  destruct (cv_select_folds Model fit_all score_more_states three_instances
              Hn) as (folds & best & log & H1 & H2 & _ & _ & H5 & _).
  exists folds, best, log. auto.
Defined.

Lemma cv_select_returns_final_fold_model_witness :
  2 <= List.length (sequences three_instances)
  /\ fst (SelectorCV.select fit_all score_more_states three_instances)
     = Ok (Some (3, [1; 2]))
  /\ exists folds held_in,
      KFold.split 3 3 = Ok folds
      /\ combine_sequences (fst (last folds ([], [])))
                           (sequences three_instances) = Ok held_in
      /\ fit_all 3 14 held_in = Ok (3, [1; 2]).
Proof.
  assert (2 <= List.length (sequences three_instances)) as Hn by (cbn; lia).
  split; [exact Hn|]. split; [vm_compute; reflexivity|].
  destruct (cv_select_returns_final_fold_model Model fit_all
              score_more_states three_instances (3, [1; 2])
              (snd (SelectorCV.select fit_all score_more_states
                      three_instances)) Hn)
    as (folds & Hsplit & (num & train & test & held_in & avg
                          & _ & Hlast & Hc & Hfit & _) & _).
  { vm_compute. reflexivity. }
  exists folds, held_in. rewrite Hlast. cbn [fst].
  split; [exact Hsplit|]. split; [exact Hc|].
  unfold fit_all in Hfit |- *. injection Hfit as _ Hdata. now rewrite Hdata.
Defined.

Lemma recognize_stale_score_witness :
  scores 2 (snd (item 0)) = Raise ValueError
  /\ Recognizer.recognize scores models_B [item 0] = Raise UnboundLocalError.
Proof.
  split; [reflexivity|].
  apply (proj1 recognize_stale_score nat scores "B"%string 2 [] (item 0) []
           ValueError).
  reflexivity.
Defined.

Lemma recognize_argmax_when_all_score_witness :
  (forall x, In x [item 2] -> RecognizerSpec.all_score scores models_AB (snd x))
  /\ exists ps gs,
      Recognizer.recognize scores models_AB [item 2] = Ok (ps, gs)
      /\ List.length gs = 1.
Proof.
  assert (forall x, In x [item 2] ->
                    RecognizerSpec.all_score scores models_AB (snd x)) as Hall.
  { intros x [<-|[]] w [<-|[<-|[]]]; eexists _, _; split; reflexivity. }
  split; [exact Hall|].
  destruct (recognize_argmax_when_all_score nat scores models_AB [item 2] Hall)
    as (ps & gs & Hrun & _ & Hlen & _).
  exists ps, gs. split; [exact Hrun|exact Hlen].
Defined.

Lemma recognize_mappings_complete_witness :
  Recognizer.recognize scores models_AB [item 0]
  = Ok ([[("A"%string, (-5 # 1)%Q); ("B"%string, 0%Q)]], [Some "A"%string])
  /\ exists p,
      nth_error [[("A"%string, (-5 # 1)%Q); ("B"%string, 0%Q)]] 0 = Some p
      /\ get p "B"%string = Some 0%Q.
Proof.
  assert (Recognizer.recognize scores models_AB [item 0]
          = Ok ([[("A"%string, (-5 # 1)%Q); ("B"%string, 0%Q)]],
                [Some "A"%string])) as Hrun by (vm_compute; reflexivity).
  split; [exact Hrun|].
  destruct (recognize_mappings_complete nat scores models_AB [item 0] _ _
              Hrun) as (_ & _ & Hmap).
  destruct (Hmap 0 (item 0) eq_refl) as (p & Hp & Hget & _).
  exists p. split; [exact Hp|].
  exact (Hget "B"%string 2 eq_refl).
Defined.

Lemma recognize_returns_after_first_score_witness :
  scores 1 (snd (item 0)) = Ok (-5 # 1)%Q
  /\ scores 1 (snd (item 3)) = Raise ValueError
  /\ exists ps gs,
      Recognizer.recognize scores models_AB [item 0; item 3] = Ok (ps, gs).
Proof.
  split; [reflexivity|]. split; [reflexivity|].
  apply (recognize_returns_after_first_score nat scores models_AB
           [item 0; item 3]).
  intros w m rest x xs [= <- <- _] [= <- _]. now eexists.
Defined.

Lemma bic_select_none_iff_first_fails_witness :
  X one_word = [frame 1 2]
  /\ Fixture2.fit_invalid 2 14 (X one_word, lengths one_word)
     = Raise ValueError
  /\ fst (SelectorBIC.select Fixture2.fit_invalid score_by_states log_rows
            one_word) = Ok None.
Proof.
  split; [reflexivity|]. split; [reflexivity|].
  destruct (bic_select_none_iff_first_fails Model Fixture2.fit_invalid
              score_by_states log_rows one_word (frame 1 2) [] eq_refl)
    as (best & Hsel & Hiff).
  rewrite Hsel. f_equal. apply Hiff.
  intros n _ (m & logL & Hfit & _). discriminate.
Defined.

Lemma bic_select_no_rows_witness :
  X Fixture2.no_rows = []
  /\ fst (SelectorBIC.select fit_all score_by_states log_rows
            Fixture2.no_rows) = Ok None.
Proof.
  split; [reflexivity|].
  exact (proj1 (bic_select_no_rows Model fit_all score_by_states log_rows
                  Fixture2.no_rows eq_refl)).
Defined.

Lemma bic_select_first_minimum_witness :
  X one_word = [frame 1 2]
  /\ fst (SelectorBIC.select fit_all Fixture2.score_flat log_rows one_word)
     = Ok (Some (2, [1]))
  /\ exists n logL,
      In n (range one_word)
      /\ fit_all n 14 (X one_word, lengths one_word) = Ok (2, [1])
      /\ Fixture2.score_flat (2, [1]) (X one_word, lengths one_word)
         = Ok logL.
Proof.
  split; [reflexivity|].
  assert (fst (SelectorBIC.select fit_all Fixture2.score_flat log_rows
                 one_word) = Ok (Some (2, [1]))) as Hsel
      by (vm_compute; reflexivity).
  split; [exact Hsel|].
  destruct (bic_select_first_minimum Model fit_all Fixture2.score_flat
              log_rows one_word (frame 1 2) [] (2, [1]) eq_refl Hsel)
    as (n & logL & Hin & Hfit & Hscore & _).
  exists n, logL. repeat split; assumption.
Defined.

Lemma dic_select_returns_later_word_fit_witness :
  fst (SelectorDIC.select fit_all score_by_word two_words)
  = Ok (Some (2, [2]))
  /\ exists num,
      In num (range two_words)
      /\ DICSpec.fit_of fit_all two_words num ["B"%string] (2, [2]).
Proof.
  assert (fst (SelectorDIC.select fit_all score_by_word two_words)
          = Ok (Some (2, [2]))) as Hsel by (vm_compute; reflexivity).
  split; [exact Hsel|].
  exact (dic_select_returns_later_word_fit Model fit_all score_by_word
           two_words (2, [2]) Hsel).
Defined.

Lemma dic_select_returns_witness :
  (forall n d e, Fixture2.fit_invalid n 14 d = Raise e -> e = ValueError)
  /\ exists best log,
      SelectorDIC.select Fixture2.fit_invalid score_by_word two_words
      = (Ok best, log).
Proof.
  assert (forall n d e,
             Fixture2.fit_invalid n 14 d = Raise e -> e = ValueError) as Hfit
      by (intros n d e [= <-]; reflexivity).
  split; [exact Hfit|].
  apply (dic_select_returns Model Fixture2.fit_invalid score_by_word
           two_words).
  - intros w [<-|[<-|[]]]; discriminate.
  - exact Hfit.
  - intros m d e. unfold score_by_word.
    destruct (snd m) as [|[|[|?]] [|? ?]]; discriminate.
Defined.

Lemma dic_select_raises_witness :
  range Fixture2.missing_data = [2]
  /\ get (hwords Fixture2.missing_data) "B"%string = None
  /\ SelectorDIC.select fit_all score_by_word Fixture2.missing_data
     = (Raise KeyError, []).
Proof.
  split; [reflexivity|]. split; [reflexivity|].
  exact (proj1 (dic_select_raises Model fit_all score_by_word
                  Fixture2.missing_data 2 [] "B"%string ["A"%string]
                  eq_refl eq_refl) eq_refl).
Defined.

Lemma cv_select_no_instance_witness :
  sequences Fixture2.no_rows = []
  /\ SelectorCV.select fit_all score_more_states Fixture2.no_rows
     = (Raise ValueError, []).
Proof.
  split; [reflexivity|].
  exact (cv_select_no_instance Model fit_all score_more_states
           Fixture2.no_rows eq_refl).
Defined.

Lemma cv_select_none_iff_no_quality_witness :
  1 <= List.length (sequences three_instances)
  /\ fst (SelectorCV.select Fixture2.fit_invalid score_more_states
            three_instances) = Ok None.
Proof.
  assert (1 <= List.length (sequences three_instances)) as Hn
      by (cbn; lia).
  split; [exact Hn|].
  destruct (cv_select_none_iff_no_quality Model Fixture2.fit_invalid
              score_more_states three_instances Hn)
    as (best & Hsel & Hiff).
  rewrite Hsel. f_equal. apply Hiff.
  intros num _. reflexivity.
Defined.

Lemma cv_select_first_maximum_witness :
  1 <= List.length (sequences three_instances)
  /\ fst (SelectorCV.select fit_all Fixture2.score_flat three_instances)
     = Ok (Some (2, [1; 2]))
  /\ exists num q,
      In num (range three_instances)
      /\ CVQuality.quality fit_all Fixture2.score_flat three_instances num
         = Some ((2, [1; 2]), q).
Proof.
  assert (1 <= List.length (sequences three_instances)) as Hn
      by (cbn; lia).
  split; [exact Hn|].
  assert (fst (SelectorCV.select fit_all Fixture2.score_flat
                 three_instances) = Ok (Some (2, [1; 2]))) as Hsel
      by (vm_compute; reflexivity).
  split; [exact Hsel|].
  destruct (cv_select_first_maximum Model fit_all Fixture2.score_flat
              three_instances (2, [1; 2]) Hn Hsel)
    as (num & q & Hin & Hq & _).
  exists num, q. split; assumption.
Defined.

End Runs.
